(** * dr_sl: line splitting and searching over null-terminated buffers

    A shallow embedding of [drsl::nextline], [drsl::findfirst] (single code
    point and string-in-string) and [drsl::findfirstof], the generic
    (template) versions.

    Conventions of the embedding
    - a buffer is a [list Z] of code units; a pointer [T *] into it is the
      index ([nat]) of the unit it points at; reading a unit at or after the
      end of the list yields 0, so that every list is a null-terminated
      buffer whose terminator is its first zero unit (or its end);
    - a returned pointer is an [option nat], [None] being [NULL];
    - [size_t] is taken to be 64 bits wide: an integer in [0, 2^64) with
      wrap-around subtraction, and the default argument [(size_t)-1] is
      [size_max];
    - a [while] or [for] loop is a [Fixpoint] on a fuel argument, the outer
      [option] of its result is [None] only when the fuel ran out; the entry
      points supply a fuel that never runs out for a decoder that meets its
      contract;
    - the two overloads of [findfirst] are [findfirst] (single code point)
      and [findfirst_sub] (string in string); the [assert]s on null
      pointers have no counterpart, a cursor being always valid. *)

From Stdlib Require Import ZArith List Bool Lia.
Import ListNotations.

Open Scope Z_scope.

(** ** Buffers, cursors and [size_t] *)

Definition unit_at (buf : list Z) (p : nat) : Z := nth p buf 0.

Definition size_modulus : Z := 2 ^ 64.

(** [(size_t)-1], the default of every length argument. *)
Definition size_max : Z := size_modulus - 1.

(** [a -= b] on [size_t]. *)
Definition size_sub (a b : Z) : Z := (a - b) mod size_modulus.

(** [temp - str], the distance in code units between two cursors. *)
Definition ptr_diff (temp str : nat) : Z := Z.of_nat temp - Z.of_nat str.

(** The units of the buffer in the half-open range [[a, b)]. *)
Definition slice (buf : list Z) (a b : nat) : list Z :=
  firstn (b - a) (skipn a buf).

(** ** The decoder collaborator *)

(** Modelled from the spec: [nextchar] is not part of the sources at hand.
    [nextchar buf p] is the decoded code point at cursor [p] together with
    the advanced cursor. *)
Class Decoder := { nextchar : list Z -> nat -> Z * nat }.

Definition is_ascii (u : Z) : Prop := 0 <= u < 128.

(** Modelled from the spec: the contract of the decoder.  The terminator
    decodes to the sentinel 0 without advancing; a unit of the ASCII range
    is a code point of its own; any other unit starts a code point outside
    the ASCII range whose units are all outside the ASCII range. *)
Class DecoderContract (D : Decoder) : Prop := {
  nextchar_terminator : forall buf p,
    unit_at buf p = 0 -> nextchar buf p = (0, p);
  nextchar_ascii : forall buf p,
    0 < unit_at buf p < 128 -> nextchar buf p = (unit_at buf p, S p);
  nextchar_wide : forall buf p,
    ~ is_ascii (unit_at buf p) ->
    ~ is_ascii (fst (nextchar buf p)) /\
    (p < snd (nextchar buf p))%nat /\
    forall i, (p <= i < snd (nextchar buf p))%nat -> ~ is_ascii (unit_at buf i)
}.

(** Modelled from the spec: [getchar (str, index)], the code point number
    [index] of a string, counted in code points from the cursor. *)
Fixpoint getchar {D : Decoder} (buf : list Z) (str : nat) (index : nat) : Z :=
  match index with
  | O => fst (nextchar buf str)
  | S index' => getchar buf (snd (nextchar buf str)) index'
  end.

(** Modelled from the spec: [length (str)], the distance in code units from
    the cursor to the terminator. *)
Fixpoint length_from (fuel : nat) (buf : list Z) (str : nat) : nat :=
  match fuel with
  | O => O
  | S fuel' =>
      if unit_at buf str =? 0 then O else S (length_from fuel' buf (S str))
  end.

Definition length_ (buf : list Z) (str : nat) : nat :=
  length_from (length buf - str) buf str.

(** Modelled from the spec: [compare (str1, str2, count)] is not part of the
    sources at hand; the string search takes it as it comes and tests its
    result against 0 only. *)
Class Comparator :=
  { compare : list Z -> nat -> list Z -> nat -> Z -> Z }.

(** Modelled from the spec: an ordinal comparator, over at most [count]
    code units and stopping at a terminator, in the manner of [strncmp];
    the second string's terminator ends the comparison at the latest. *)
Fixpoint compare_units (fuel : nat) (buf1 : list Z) (p1 : nat)
                       (buf2 : list Z) (p2 : nat) (count : Z) : Z :=
  match fuel with
  | O => 0
  | S fuel' =>
      let a := unit_at buf1 p1 in
      let b := unit_at buf2 p2 in
      if count <=? 0 then 0
      else if a <? b then -1
      else if b <? a then 1
      else if a =? 0 then 0
      else compare_units fuel' buf1 (S p1) buf2 (S p2) (count - 1)
  end.

Definition ordinal : Comparator :=
  {| compare := fun buf1 p1 buf2 p2 count =>
       compare_units (S (length buf2 - p2)) buf1 p1 buf2 p2 count |}.

(** *** Two decoders *)

(** Modelled from the spec: a decoder of fixed width, every unit being a
    code point (wide buffers, or narrow ones holding ASCII). *)
Definition fixed_nextchar (buf : list Z) (p : nat) : Z * nat :=
  let u := unit_at buf p in
  if u =? 0 then (0, p) else (u, S p).

Definition fixed_width : Decoder := {| nextchar := fixed_nextchar |}.

(** A continuation unit of UTF-8. *)
Definition is_cont (u : Z) : bool := (128 <=? u) && (u <=? 191).

(** Modelled from the spec: a decoder of UTF-8 over narrow units in
    [0, 256), a code point taking one to four units.  A sequence that is not
    well formed (stray or missing continuation unit, overlong form) decodes
    unit by unit to U+FFFD. *)

Definition utf8_nextchar (buf : list Z) (p : nat) : Z * nat :=
  let b0 := unit_at buf p in
  let b1 := unit_at buf (p + 1) in
  let b2 := unit_at buf (p + 2) in
  let b3 := unit_at buf (p + 3) in
  let c2 := (b0 - 192) * 64 + (b1 - 128) in
  let c3 := (b0 - 224) * 4096 + (b1 - 128) * 64 + (b2 - 128) in
  let c4 := (b0 - 240) * 262144 + (b1 - 128) * 4096 + (b2 - 128) * 64
            + (b3 - 128) in
  if b0 =? 0 then (0, p)
  else if (0 <? b0) && (b0 <? 128) then (b0, S p)
  else if (194 <=? b0) && (b0 <=? 223) && is_cont b1 then (c2, (p + 2)%nat)
  else if (224 <=? b0) && (b0 <=? 239) && is_cont b1 && is_cont b2
          && (2048 <=? c3) then (c3, (p + 3)%nat)
  else if (240 <=? b0) && (b0 <=? 247) && is_cont b1 && is_cont b2
          && is_cont b3 && (65536 <=? c4) then (c4, (p + 4)%nat)
  else (65533, S p).

Definition utf8 : Decoder := {| nextchar := utf8_nextchar |}.

(** ** The view type *)

(** Modelled from the spec: [reference_string<T>], whose declaration is not
    part of the sources at hand, is a pair of cursors into a buffer, written
    by [nextline] through its members [start] and [end]. *)
Record reference_string := { start : nat; end_ : nat }.

Definition set_start (line : reference_string) (p : nat) : reference_string :=
  {| start := p; end_ := end_ line |}.

Definition set_end (line : reference_string) (p : nat) : reference_string :=
  {| start := start line; end_ := p |}.

Section Generic.

Context {D : Decoder} {C : Comparator}.

(** ** [nextline] *)

(** The [while] loop of [nextline].  [temp] is a copy of [str] on entry and
    [str = temp] ends every iteration, so the two cursors are equal at every
    loop test and the loop state is [str] alone. *)
Fixpoint nextline_loop (fuel : nat) (buf : list Z) (line : reference_string)
                       (str : nat) : option (bool * reference_string * nat) :=
  match fuel with
  | O => None
  | S fuel' =>
      let (ch, temp) := nextchar buf str in
      if ch =? 0 then Some (true, set_end line str, str)
      else if ch =? 13 then
        let (ch2, temp2) := nextchar buf temp in
        if ch2 =? 10 then Some (true, set_end line str, temp2)
        else nextline_loop fuel' buf line temp
      else if ch =? 10 then Some (true, set_end line str, temp)
      else nextline_loop fuel' buf line temp
  end.

(** [nextline (line, str)]: the returned flag, the view and the cursor after
    the call. *)
Definition nextline (buf : list Z) (line : reference_string) (str : nat)
  : option (bool * reference_string * nat) :=
  if unit_at buf str =? 0 then Some (false, line, str)
  else nextline_loop (S (length buf - str)) buf (set_start line str) str.

(** Repeated calls of [nextline]: the views and the cursor after each call
    that returned true, and the cursor at which the call returned false. *)
Fixpoint all_lines (calls : nat) (buf : list Z) (line : reference_string)
                   (str : nat) : option (list (reference_string * nat) * nat) :=
  match calls with
  | O => None
  | S calls' =>
      match nextline buf line str with
      | None => None
      | Some (false, _, str') => Some ([], str')
      | Some (true, line', str') =>
          match all_lines calls' buf line' str' with
          | None => None
          | Some (ls, fin) => Some ((line', str') :: ls, fin)
          end
      end
  end.

(** ** [findfirst], single code point *)

Fixpoint findfirst_loop (fuel : nat) (buf : list Z) (str : nat)
                        (character strLength : Z) : option (option nat) :=
  match fuel with
  | O => None
  | S fuel' =>
      if 0 <? strLength then
        let (ch, temp) := nextchar buf str in
        if ch =? 0 then Some None
        else if ch =? character then Some (Some str)
        else findfirst_loop fuel' buf temp character
                            (size_sub strLength (ptr_diff temp str))
      else Some None
  end.

Definition findfirst (buf : list Z) (str : nat) (character strLength : Z)
  : option (option nat) :=
  findfirst_loop (S (length buf - str)) buf str character strLength.

(** ** [findfirst], string in string *)

(** The [for] loop: [str1] is reassigned by the single code point search
    with the same [str1Length] at every turn, and stepped over one code
    point after a mismatch. *)
Fixpoint findfirst_sub_loop (fuel : nat) (buf1 : list Z) (str1 : nat)
                            (buf2 : list Z) (str2 : nat)
                            (first_char str1Length str2Length : Z)
  : option (option nat) :=
  match fuel with
  | O => None
  | S fuel' =>
      match findfirst buf1 str1 first_char str1Length with
      | None => None
      | Some None => Some None
      | Some (Some found) =>
          if compare buf1 found buf2 str2 str2Length =? 0 then Some (Some found)
          else findfirst_sub_loop fuel' buf1 (snd (nextchar buf1 found))
                                  buf2 str2 first_char str1Length str2Length
      end
  end.

Definition findfirst_sub (buf1 : list Z) (str1 : nat) (buf2 : list Z)
                         (str2 : nat) (str1Length str2Length : Z)
  : option (option nat) :=
  if (str2Length =? 0) || (unit_at buf2 str2 =? 0) then Some (Some str1)
  else
    let str2Length :=
      if str2Length =? size_max then Z.of_nat (length_ buf2 str2)
      else str2Length in
    let first_char := getchar buf2 str2 0 in
    findfirst_sub_loop (S (length buf1 - str1)) buf1 str1 buf2 str2
                       first_char str1Length str2Length.

(** ** [findfirstof] *)

(** The inner loop over the character set: [ch] is the source code point
    and [advance] is [temp - str], the units it took in the source.  The
    local [start_of_ch2] is written and never read. *)
Fixpoint findfirstof_set_loop (fuel : nat) (charSet : list Z) (temp_set : nat)
                              (temp_length ch advance : Z) : option bool :=
  match fuel with
  | O => None
  | S fuel' =>
      if 0 <? temp_length then
        let (ch2, temp_set') := nextchar charSet temp_set in
        if ch2 =? 0 then Some false
        else if ch2 =? ch then Some true
        else findfirstof_set_loop fuel' charSet temp_set'
                                  (size_sub temp_length advance) ch advance
      else Some false
  end.

Fixpoint findfirstof_loop (fuel : nat) (buf : list Z) (str : nat)
                          (charSet : list Z) (set0 : nat)
                          (strLength setLength : Z) : option (option nat) :=
  match fuel with
  | O => None
  | S fuel' =>
      if 0 <? strLength then
        let (ch, temp) := nextchar buf str in
        if ch =? 0 then Some None
        else
          match findfirstof_set_loop (S (length charSet - set0)) charSet set0
                                     setLength ch (ptr_diff temp str) with
          | None => None
          | Some true => Some (Some str)
          | Some false =>
              findfirstof_loop fuel' buf temp charSet set0
                               (size_sub strLength (ptr_diff temp str))
                               setLength
          end
      else Some None
  end.

Definition findfirstof (buf : list Z) (str : nat) (charSet : list Z)
                       (set0 : nat) (strLength setLength : Z)
  : option (option nat) :=
  findfirstof_loop (S (length buf - str)) buf str charSet set0
                   strLength setLength.

End Generic.

(** ** Line breaks, unit by unit *)

(** A break is the terminator, a line feed, or a carriage return that a
    line feed follows. *)
Definition is_break (buf : list Z) (e : nat) : bool :=
  (unit_at buf e =? 0) || (unit_at buf e =? 10)
  || ((unit_at buf e =? 13) && (unit_at buf (S e) =? 10)).

(** The units the cursor steps over at a break. *)
Definition delim_width (buf : list Z) (e : nat) : nat :=
  if unit_at buf e =? 0 then 0%nat
  else if unit_at buf e =? 10 then 1%nat
  else 2%nat.

Fixpoint break_from (rest : list Z) (p : nat) : nat :=
  match rest with
  | [] => p
  | u :: rest' =>
      if (u =? 0) || (u =? 10) || ((u =? 13) && (hd 0 rest' =? 10)) then p
      else break_from rest' (S p)
  end.

(** The first break at or after [p]. *)
Definition find_break (buf : list Z) (p : nat) : nat :=
  break_from (skipn p buf) p.

(** ** Lines as lists of units *)

Definition line_units (buf : list Z) (lc : reference_string * nat) : list Z :=
  slice buf (start (fst lc)) (end_ (fst lc)).

(** The units between the end of the view and the cursor after the call. *)
Definition delim_units (buf : list Z) (lc : reference_string * nat) : list Z :=
  slice buf (end_ (fst lc)) (snd lc).

(** The views of successive calls follow one another from [p] to [fin]:
    each starts at the cursor the call received, ends before a line feed or
    a carriage return and line feed that the cursor steps over, and only
    the last one may end with nothing stepped over. *)
Fixpoint chained (buf : list Z) (p : nat) (ls : list (reference_string * nat))
                 (fin : nat) : Prop :=
  match ls with
  | [] => p = fin
  | lc :: ls' =>
      start (fst lc) = p /\
      (p <= end_ (fst lc) <= snd lc)%nat /\
      (delim_units buf lc = [10] \/ delim_units buf lc = [13; 10] \/
       (delim_units buf lc = [] /\ ls' = [])) /\
      chained buf (snd lc) ls' fin
  end.

(** All the lines of a buffer, as lists of units. *)
Definition split_lines {D : Decoder} (buf : list Z) : option (list (list Z)) :=
  match all_lines (S (length buf)) buf {| start := 0; end_ := 0 |} 0 with
  | Some (ls, _) => Some (map (line_units buf) ls)
  | None => None
  end.

(** ** Decoded buffers *)

(** The code points from cursor [p] up to the terminator: for each one the
    cursor of its leading unit, its value and the cursor after it. *)
Fixpoint decode_from {D : Decoder} (fuel : nat) (buf : list Z) (p : nat)
  : list (nat * Z * nat) :=
  match fuel with
  | O => []
  | S fuel' =>
      let (ch, temp) := nextchar buf p in
      if ch =? 0 then [] else (p, ch, temp) :: decode_from fuel' buf temp
  end.

Definition decode_all {D : Decoder} (buf : list Z) (p : nat)
  : list (nat * Z * nat) :=
  decode_from (length buf - p) buf p.

Definition cp_start (e : nat * Z * nat) : nat := fst (fst e).
Definition cp_value (e : nat * Z * nat) : Z := snd (fst e).
Definition cp_next (e : nat * Z * nat) : nat := snd e.

(** The cursor of the first code point equal to [character]. *)
Definition first_occurrence {D : Decoder} (buf : list Z) (str : nat)
                            (character : Z) : option nat :=
  option_map cp_start
    (find (fun e => cp_value e =? character) (decode_all buf str)).

(** ** Searching within a bound *)

(** The code points of the character set. *)
Definition set_members {D : Decoder} (charSet : list Z) (set0 : nat) : list Z :=
  map cp_value (decode_all charSet set0).

(** The members of the set that are compared with a source code point: the
    budget is tested before each member and reduced, after each, by the
    units the source code point took. *)
Fixpoint examined (members : list Z) (budget advance : Z) : list Z :=
  match members with
  | [] => []
  | m :: members' =>
      if 0 <? budget then m :: examined members' (size_sub budget advance) advance
      else []
  end.

Definition is_member (members : list Z) (ch : Z) : bool :=
  existsb (fun m => m =? ch) members.

(** The leading unit of the code point lies before the limit. *)
Definition within (limit : Z) (e : nat * Z * nat) : bool :=
  Z.of_nat (cp_start e) <? limit.

(** The code point starts before the limit and ends after it. *)
Definition straddles (limit : Z) (e : nat * Z * nat) : bool :=
  within limit e && (limit <? Z.of_nat (cp_next e)).

(** The cursor of the first code point before the limit that is a member of
    the set. *)
Definition first_of_set {D : Decoder} (buf : list Z) (str : nat) (limit : Z)
                        (members : list Z) : option nat :=
  option_map cp_start
    (find (fun e => within limit e && is_member members (cp_value e))
          (decode_all buf str)).

(** The statement that a code point straddling the bound is never returned
    as a match. *)
Definition never_matches_straddling (D : Decoder) : Prop :=
  forall buf str character strLength p,
    straddles (Z.of_nat str + strLength)
              (p, fst (nextchar buf p), snd (nextchar buf p)) = true ->
    findfirst buf str character strLength <> Some (Some p).

Definition hello : list Z := [104; 101; 108; 108; 111].

(** ** The remaining overloads *)

(** Modelled from the spec: [length (str)] of a view, whose definition is
    not part of the sources at hand, is the distance in code units from the
    start of the view to its end, as a [size_t]. *)
Definition length_ref (str : reference_string) : Z :=
  size_sub (Z.of_nat (end_ str)) (Z.of_nat (start str)).

(** [findfirst (const reference_string<T> &, char32_t)]. *)
Definition findfirst_ref {D : Decoder} (buf : list Z) (str : reference_string)
                         (character : Z) : option (option nat) :=
  findfirst buf (start str) character (length_ref str).

(** [findfirst (const reference_string<T> &, const reference_string<T> &)],
    each view into its own buffer. *)
Definition findfirst_sub_ref {D : Decoder} {C : Comparator}
    (buf1 : list Z) (str1 : reference_string)
    (buf2 : list Z) (str2 : reference_string) : option (option nat) :=
  findfirst_sub buf1 (start str1) buf2 (start str2)
                (length_ref str1) (length_ref str2).

(** [findfirstof (T *, char32_t, size_t)].  The overloads on [T *] of the
    two searches with a second string cast their first argument and the
    result, and are the functions above. *)
Definition findfirstof_char {D : Decoder} (buf : list Z) (str : nat)
                            (character strLength : Z) : option (option nat) :=
  findfirst buf str character strLength.

(** ** What the searches are compared with *)

(** The cursor of the first code point before the limit that is equal to
    [character]. *)
Definition first_occurrence_before {D : Decoder} (buf : list Z) (str : nat)
                                   (limit character : Z) : option nat :=
  option_map cp_start
    (find (fun e => within limit e && (cp_value e =? character))
          (decode_all buf str)).

(** The cursor of the first code point equal to [first_char] at which the
    comparator reports the needle. *)
Definition first_match {D : Decoder} {C : Comparator}
    (buf1 : list Z) (str1 : nat) (buf2 : list Z) (str2 : nat)
    (first_char str2Length : Z) : option nat :=
  option_map cp_start
    (find (fun e => (cp_value e =? first_char)
                    && (compare buf1 (cp_start e) buf2 str2 str2Length =? 0))
          (decode_all buf1 str1)).

(** The needle length the string search passes to the comparator. *)
Definition needle_length (buf2 : list Z) (str2 : nat) (str2Length : Z) : Z :=
  if str2Length =? size_max then Z.of_nat (length_ buf2 str2) else str2Length.

(** The units of a buffer before its terminator. *)
Definition content (buf : list Z) : list Z := firstn (length_ buf 0) buf.

(** One more line than line feeds when the last unit is not a line feed. *)
Definition open_tail (units : list Z) : nat :=
  if last units 10 =? 10 then 0%nat else 1%nat.

(** * Lemmas *)

(** ** The two decoders meet the contract *)

Lemma fixed_width_contract : DecoderContract fixed_width.
Proof.
  split; cbn [nextchar fixed_width]; unfold fixed_nextchar, is_ascii.
  - intros buf p H. rewrite H. reflexivity.
  - intros buf p H. destruct (Z.eqb_spec (unit_at buf p) 0); [lia | reflexivity].
  - intros buf p H. destruct (Z.eqb_spec (unit_at buf p) 0) as [E | E]; [lia |].
    cbn [fst snd]. repeat split; try lia.
    intros i Hi. replace i with p by lia. exact H.
Qed.

Lemma is_cont_not_ascii u : is_cont u = true -> ~ is_ascii u.
Proof. unfold is_cont, is_ascii. lia. Qed.

Lemma utf8_contract : DecoderContract utf8.
Proof.
  split; cbn [nextchar utf8]; unfold utf8_nextchar.
  - intros buf p H. rewrite H. reflexivity.
  - intros buf p H.
    destruct (Z.eqb_spec (unit_at buf p) 0); [lia |].
    replace ((0 <? unit_at buf p) && (unit_at buf p <? 128)) with true by lia.
    reflexivity.
  - intros buf p H. unfold is_ascii in H.
    destruct (Z.eqb_spec (unit_at buf p) 0); [lia |].
    replace ((0 <? unit_at buf p) && (unit_at buf p <? 128)) with false by lia.
    assert (Hone : forall i, (p <= i < S p)%nat -> ~ is_ascii (unit_at buf i)).
    { intros i Hi. replace i with p by lia. exact H. }
    repeat match goal with
           | |- context [if ?b then _ else _] => destruct b eqn:?
           end; cbn [fst snd]; unfold is_ascii;
      repeat match goal with
             | E : _ && _ = true |- _ => apply andb_prop in E; destruct E
             end.
    + repeat split; try lia.
      * unfold is_cont in *. lia.
      * intros i Hi. assert (i = p \/ i = (p + 1)%nat) as [-> | ->] by lia;
          [lia | now apply is_cont_not_ascii].
    + repeat split; try lia.
      intros i Hi.
      assert (i = p \/ i = (p + 1)%nat \/ i = (p + 2)%nat) as [-> | [-> | ->]]
        by lia; [lia | now apply is_cont_not_ascii ..].
    + repeat split; try lia.
      intros i Hi.
      assert (i = p \/ i = (p + 1)%nat \/ i = (p + 2)%nat \/ i = (p + 3)%nat)
        as [-> | [-> | [-> | ->]]] by lia;
        [lia | now apply is_cont_not_ascii ..].
    + repeat split; try lia. exact Hone.
Qed.

(** ** Reading buffers *)

Lemma unit_at_nonzero_lt buf p : unit_at buf p <> 0 -> (p < length buf)%nat.
Proof.
  intros H. destruct (Nat.lt_ge_cases p (length buf)) as [L | L]; [exact L |].
  exfalso. apply H. unfold unit_at. now apply nth_overflow.
Qed.

Lemma skipn_unit_at buf p :
  (p < length buf)%nat -> skipn p buf = unit_at buf p :: skipn (S p) buf.
Proof.
  revert p. induction buf as [| u buf IH]; intros p L; cbn in L; [lia |].
  destruct p as [| p]; [reflexivity |].
  cbn [skipn]. rewrite IH by lia. reflexivity.
Qed.

Lemma hd_skipn buf p : hd 0 (skipn p buf) = unit_at buf p.
Proof.
  revert p. induction buf as [| u buf IH]; intros [| p]; try reflexivity.
  cbn [skipn]. apply IH.
Qed.

Lemma slice_nil buf a : slice buf a a = [].
Proof. unfold slice. now rewrite Nat.sub_diag. Qed.

Lemma slice_cons buf a b :
  (a < b)%nat -> (a < length buf)%nat ->
  slice buf a b = unit_at buf a :: slice buf (S a) b.
Proof.
  intros L1 L2. unfold slice. rewrite (skipn_unit_at buf a L2).
  replace (b - a)%nat with (S (b - S a)) by lia. reflexivity.
Qed.

Lemma slice_app buf a b c :
  (a <= b <= c)%nat -> slice buf a b ++ slice buf b c = slice buf a c.
Proof.
  intros L. unfold slice.
  replace (skipn b buf) with (skipn (b - a) (skipn a buf))
    by (rewrite skipn_skipn; f_equal; lia).
  replace (c - a)%nat with ((b - a) + (c - b))%nat by lia.
  rewrite <- (firstn_skipn (b - a) (firstn (b - a + (c - b)) (skipn a buf))).
  f_equal.
  - rewrite firstn_firstn. f_equal. lia.
  - rewrite skipn_firstn_comm. f_equal. lia.
Qed.

Lemma slice_from_zero buf b : slice buf 0 b = firstn b buf.
Proof. unfold slice. now rewrite Nat.sub_0_r. Qed.

(** [length_] unfolds like [strlen]. *)
Lemma length_unfold buf p :
  length_ buf p = if unit_at buf p =? 0 then O else S (length_ buf (S p)).
Proof.
  unfold length_. destruct (Z.eqb_spec (unit_at buf p) 0) as [E | E].
  - destruct (length buf - p)%nat; cbn; [reflexivity |].
    now rewrite E.
  - pose proof (unit_at_nonzero_lt buf p E) as L.
    replace (length buf - p)%nat with (S (length buf - S p)) by lia.
    cbn [length_from]. destruct (Z.eqb_spec (unit_at buf p) 0); [lia | reflexivity].
Qed.

Lemma length_terminator buf p : unit_at buf (p + length_ buf p) = 0.
Proof.
  remember (length buf - p)%nat as n eqn:En.
  revert p En. induction n as [| n IH]; intros p En;
    rewrite length_unfold; destruct (Z.eqb_spec (unit_at buf p) 0) as [E | E];
    try (now rewrite Nat.add_0_r).
  - apply unit_at_nonzero_lt in E. lia.
  - apply unit_at_nonzero_lt in E.
    replace (p + S (length_ buf (S p)))%nat with (S p + length_ buf (S p))%nat
      by lia.
    apply IH. lia.
Qed.

Lemma length_skip buf p q :
  (p <= q)%nat -> (forall i, (p <= i < q)%nat -> unit_at buf i <> 0) ->
  (p + length_ buf p = q + length_ buf q)%nat.
Proof.
  intros L. induction L as [| q L IH]; intros NZ; [reflexivity |].
  rewrite IH by (intros; apply NZ; lia).
  rewrite (length_unfold buf q).
  destruct (Z.eqb_spec (unit_at buf q) 0) as [E | E]; [| lia].
  exfalso. apply (NZ q); [lia | exact E].
Qed.

(** ** The first break *)

Lemma find_break_unfold buf p :
  find_break buf p = if is_break buf p then p else find_break buf (S p).
Proof.
  unfold find_break, is_break.
  destruct (Nat.lt_ge_cases p (length buf)) as [L | L].
  - rewrite (skipn_unit_at buf p L). cbn [break_from].
    now rewrite hd_skipn.
  - rewrite skipn_all2 by lia. cbn [break_from].
    unfold unit_at at 1. rewrite nth_overflow by lia. reflexivity.
Qed.

Lemma find_break_skip buf p q :
  (p <= q)%nat -> (forall i, (p <= i < q)%nat -> is_break buf i = false) ->
  find_break buf p = find_break buf q.
Proof.
  intros L. induction L as [| q L IH]; intros NB; [reflexivity |].
  rewrite IH by (intros; apply NB; lia).
  rewrite (find_break_unfold buf q). now rewrite NB by lia.
Qed.

Lemma find_break_spec buf p :
  let e := find_break buf p in
  (p <= e)%nat /\ is_break buf e = true /\
  forall i, (p <= i < e)%nat -> is_break buf i = false.
Proof.
  remember (length buf - p)%nat as n eqn:En.
  revert p En. induction n as [| n IH]; intros p En; cbn zeta;
    rewrite find_break_unfold; destruct (is_break buf p) eqn:B;
    try (repeat split; [lia | exact B | intros; lia]).
  - exfalso. unfold is_break, unit_at in B. rewrite nth_overflow in B by lia.
    discriminate.
  - destruct (IH (S p)) as (L & Bk & NB).
    { assert (unit_at buf p <> 0) as NZ
        by (unfold is_break in B; lia).
      apply unit_at_nonzero_lt in NZ. lia. }
    repeat split; [lia | exact Bk |].
    intros i Hi. destruct (Nat.eq_dec i p) as [-> | Ne]; [exact B |].
    apply NB. lia.
Qed.

Lemma not_ascii_not_break buf i : ~ is_ascii (unit_at buf i) -> is_break buf i = false.
Proof. unfold is_ascii, is_break. lia. Qed.

(** ** What a decoder under contract returns *)

Section Contract.

Context {D : Decoder} {DC : DecoderContract D}.

Lemma nextchar_cases buf p ch temp :
  nextchar buf p = (ch, temp) ->
  (unit_at buf p = 0 /\ ch = 0 /\ temp = p) \/
  (0 < unit_at buf p < 128 /\ ch = unit_at buf p /\ temp = S p) \/
  (~ is_ascii (unit_at buf p) /\ ~ is_ascii ch /\ (p < temp)%nat /\
   forall i, (p <= i < temp)%nat -> ~ is_ascii (unit_at buf i)).
Proof.
  intros Dec.
  destruct (Z.eq_dec (unit_at buf p) 0) as [E | E].
  - rewrite (nextchar_terminator buf p E) in Dec. left.
    injection Dec as <- <-. auto.
  - destruct (Z_lt_ge_dec (unit_at buf p) 128) as [L | L];
      [destruct (Z_lt_ge_dec 0 (unit_at buf p)) as [L0 | L0] |].
    + rewrite (nextchar_ascii buf p) in Dec by lia. right; left.
      injection Dec as <- <-. repeat split; lia.
    + right; right. destruct (nextchar_wide buf p) as (A & B & C);
        [unfold is_ascii; lia |].
      rewrite Dec in *. cbn [fst snd] in *.
      repeat split; try assumption; unfold is_ascii; lia.
    + right; right. destruct (nextchar_wide buf p) as (A & B & C);
        [unfold is_ascii; lia |].
      rewrite Dec in *. cbn [fst snd] in *.
      repeat split; try assumption; unfold is_ascii; lia.
Qed.

(** The decoder never reports the terminator before it stands on it, and
    advances otherwise. *)
Lemma nextchar_zero_iff buf p : fst (nextchar buf p) = 0 <-> unit_at buf p = 0.
Proof.
  destruct (nextchar buf p) as [ch temp] eqn:Dec. cbn [fst].
  destruct (nextchar_cases _ _ _ _ Dec) as [(E & -> & ->) | [(E & -> & ->) | (A & B & L & I)]];
    unfold is_ascii in *; lia.
Qed.

Lemma nextchar_advances buf p :
  unit_at buf p <> 0 ->
  (p < snd (nextchar buf p) <= length buf)%nat /\
  forall i, (p <= i < snd (nextchar buf p))%nat -> unit_at buf i <> 0.
Proof.
  intros NZ. destruct (nextchar buf p) as [ch temp] eqn:Dec. cbn [snd].
  destruct (nextchar_cases _ _ _ _ Dec) as [(E & -> & ->) | [(E & -> & ->) | (A & B & L & I)]];
    unfold is_ascii in *.
  - contradiction.
  - apply unit_at_nonzero_lt in NZ as L. split; [lia |].
    intros i Hi. replace i with p by lia. lia.
  - assert (forall i, (p <= i < temp)%nat -> unit_at buf i <> 0) as NZs
      by (intros i Hi; specialize (I i Hi); lia).
    split; [| exact NZs]. split; [exact L |].
    destruct temp as [| q]; [lia |].
    specialize (NZs q ltac:(lia)). apply unit_at_nonzero_lt in NZs. lia.
Qed.

(** ** [nextline]: the loop finds the first break *)

Lemma nextline_loop_spec fuel buf line p :
  (length buf - p < fuel)%nat ->
  nextline_loop fuel buf line p =
  Some (true, set_end line (find_break buf p),
        (find_break buf p + delim_width buf (find_break buf p))%nat).
Proof.
  revert p. induction fuel as [| fuel IH]; intros p F; [lia |].
  cbn [nextline_loop]. unfold delim_width.
  destruct (nextchar buf p) as [ch temp] eqn:Dec.
  destruct (nextchar_cases _ _ _ _ Dec)
    as [(E & -> & ->) | [(E & -> & ->) | (A & B & L & I)]].
  - rewrite (find_break_unfold buf p). unfold is_break. rewrite E. cbn.
    rewrite E. cbn. now rewrite Nat.add_0_r.
  - assert (p < length buf)%nat as Lp by (apply unit_at_nonzero_lt; lia).
    destruct (Z.eqb_spec (unit_at buf p) 0) as [? | _]; [lia |].
    destruct (Z.eqb_spec (unit_at buf p) 13) as [E13 | N13].
    + destruct (nextchar buf (S p)) as [ch2 temp2] eqn:Dec2.
      pose proof (nextchar_cases _ _ _ _ Dec2) as H2. unfold is_ascii in H2.
      destruct (Z.eqb_spec ch2 10) as [E10 | N10].
      * assert (unit_at buf (S p) = 10 /\ temp2 = S (S p)) as [U T] by lia.
        subst temp2. rewrite (find_break_unfold buf p). unfold is_break.
        rewrite E13, U. cbn. rewrite E13. cbn. do 3 f_equal. lia.
      * assert (unit_at buf (S p) <> 10) as U by lia.
        rewrite IH by lia. rewrite (find_break_unfold buf p). unfold is_break.
        rewrite E13. destruct (Z.eqb_spec (unit_at buf (S p)) 10); [lia |].
        reflexivity.
    + destruct (Z.eqb_spec (unit_at buf p) 10) as [E10 | N10].
      * rewrite (find_break_unfold buf p). unfold is_break. rewrite E10. cbn.
        rewrite E10. cbn. do 3 f_equal. lia.
      * rewrite IH by lia. rewrite (find_break_unfold buf p). unfold is_break.
        replace ((unit_at buf p =? 0) || (unit_at buf p =? 10)
                 || (unit_at buf p =? 13) && (unit_at buf (S p) =? 10))
          with false by lia.
        reflexivity.
  - assert (p < length buf)%nat as Lp
      by (apply unit_at_nonzero_lt; unfold is_ascii in *; lia).
    unfold is_ascii in B.
    destruct (Z.eqb_spec ch 0); [lia |].
    destruct (Z.eqb_spec ch 13); [lia |].
    destruct (Z.eqb_spec ch 10); [lia |].
    rewrite IH by lia.
    rewrite (find_break_skip buf p temp); [reflexivity | lia |].
    intros i Hi. apply not_ascii_not_break. now apply I.
Qed.

(** A call on a cursor that is not on the terminator returns the line up to
    the first break and steps over the break. *)
Lemma nextline_spec buf line str :
  unit_at buf str <> 0 ->
  nextline buf line str =
  Some (true, {| start := str; end_ := find_break buf str |},
        (find_break buf str + delim_width buf (find_break buf str))%nat).
Proof.
  intros NZ. unfold nextline.
  destruct (Z.eqb_spec (unit_at buf str) 0); [contradiction |].
  rewrite nextline_loop_spec by lia. reflexivity.
Qed.

End Contract.

(** ** Successive lines *)

Section NextlineFacts.

Context {D : Decoder}.

(** The loop has no exit that returns false. *)
Lemma nextline_loop_true fuel buf line p b line' str' :
  nextline_loop fuel buf line p = Some (b, line', str') -> b = true.
Proof.
  revert p. induction fuel as [| fuel IH]; intros p; cbn [nextline_loop];
    [discriminate |].
  destruct (nextchar buf p) as [ch temp].
  destruct (ch =? 0); [now intros [= <- _ _] |].
  destruct (ch =? 13).
  - destruct (nextchar buf temp) as [ch2 temp2].
    destruct (ch2 =? 10); [now intros [= <- _ _] | apply IH].
  - destruct (ch =? 10); [now intros [= <- _ _] | apply IH].
Qed.

Context {DC : DecoderContract D}.

(** What lies between the cursor and the cursor after a successful call. *)
Lemma break_step buf p :
  unit_at buf p <> 0 ->
  let e := find_break buf p in
  let c := (e + delim_width buf e)%nat in
  (p <= e <= c)%nat /\ (p < c)%nat /\
  (forall i, (p <= i < c)%nat -> unit_at buf i <> 0) /\
  (slice buf e c = [10] \/ slice buf e c = [13; 10] \/
   (slice buf e c = [] /\ unit_at buf c = 0)).
Proof.
  intros NZ e c. destruct (find_break_spec buf p) as (L & B & NB).
  fold e in L, B, NB. unfold delim_width in c. unfold is_break in B.
  assert (forall i, (p <= i < e)%nat -> unit_at buf i <> 0) as NZe.
  { intros i Hi. specialize (NB i Hi). unfold is_break in NB. lia. }
  destruct (Z.eqb_spec (unit_at buf e) 0) as [E0 | N0].
  - assert (p <> e) by congruence.
    subst c. rewrite Nat.add_0_r. repeat split; try lia.
    + intros i Hi. apply NZe. lia.
    + right; right. now rewrite slice_nil.
  - pose proof (unit_at_nonzero_lt buf e N0) as Le.
    destruct (Z.eqb_spec (unit_at buf e) 10) as [E10 | N10].
    + subst c. repeat split; try lia.
      * intros i Hi. destruct (Nat.eq_dec i e) as [-> | Ne]; [lia |].
        apply NZe. lia.
      * left. rewrite slice_cons by lia.
        rewrite E10. replace (S e) with (e + 1)%nat by lia. now rewrite slice_nil.
    + assert (unit_at buf e = 13 /\ unit_at buf (S e) = 10) as [E13 En] by lia.
      assert (S e < length buf)%nat by (apply unit_at_nonzero_lt; lia).
      subst c. repeat split; try lia.
      * intros i Hi. destruct (Nat.eq_dec i e) as [-> | Ne]; [lia |].
        destruct (Nat.eq_dec i (S e)) as [-> | Ne']; [lia |].
        apply NZe. lia.
      * right; left. rewrite slice_cons by lia. rewrite slice_cons by lia.
        rewrite E13, En. replace (S (S e)) with (e + 2)%nat by lia.
        now rewrite slice_nil.
Qed.

Lemma all_lines_spec calls buf line p :
  (length buf - p < calls)%nat ->
  exists ls,
    all_lines calls buf line p = Some (ls, (p + length_ buf p)%nat) /\
    chained buf p ls (p + length_ buf p)%nat /\
    concat (map (fun lc => line_units buf lc ++ delim_units buf lc) ls)
    = slice buf p (p + length_ buf p).
Proof.
  revert line p. induction calls as [| calls IH]; intros line p F; [lia |].
  cbn [all_lines].
  destruct (Z.eq_dec (unit_at buf p) 0) as [E | NZ].
  - unfold nextline. rewrite E. cbn.
    rewrite (length_unfold buf p), E. cbn. rewrite Nat.add_0_r.
    exists []. cbn. now rewrite slice_nil.
  - rewrite (nextline_spec buf line p NZ).
    destruct (break_step buf p NZ) as (Le & Lc & NZs & Shape).
    set (e := find_break buf p) in *.
    set (c := (e + delim_width buf e)%nat) in *.
    pose proof (unit_at_nonzero_lt buf p NZ) as Lp.
    destruct (IH {| start := p; end_ := e |} c ltac:(lia)) as (ls & A & Ch & Cat).
    rewrite A.
    assert (p + length_ buf p = c + length_ buf c)%nat as Len
      by (apply length_skip; [lia | exact NZs]).
    exists (({| start := p; end_ := e |}, c) :: ls). rewrite Len.
    split; [reflexivity |]. split.
    + cbn [chained fst snd start end_]. unfold delim_units. cbn [fst snd end_].
      repeat split; try lia; [| exact Ch].
      destruct Shape as [S1 | [S2 | [S3 Z0]]]; [now left | now right; left |].
      right; right. split; [exact S3 |].
      destruct calls as [| calls']; [discriminate A |].
      cbn [all_lines] in A. unfold nextline in A. rewrite Z0 in A. cbn in A.
      now injection A as <- _.
    + cbn [map concat]. rewrite Cat. unfold line_units, delim_units.
      cbn [fst snd start end_].
      assert (c <= c + length_ buf c)%nat by lia.
      rewrite <- app_assoc. rewrite (slice_app buf e c) by lia.
      rewrite (slice_app buf p e) by lia. reflexivity.
Qed.

End NextlineFacts.

(** ** Fuel and unfolding of the searches *)

Section FindfirstFacts.

Context {D : Decoder}.

(** The terminator is never compared with the target. *)
Lemma findfirst_loop_never_zero fuel buf str strLength p :
  findfirst_loop fuel buf str 0 strLength <> Some (Some p).
Proof.
  revert str strLength. induction fuel as [| fuel IH]; intros str n;
    cbn [findfirst_loop]; [discriminate |].
  destruct (0 <? n); [| discriminate].
  destruct (nextchar buf str) as [ch temp].
  destruct (ch =? 0) eqn:E; [discriminate |]. apply IH.
Qed.

Context {DC : DecoderContract D}.

Lemma nextchar_step buf p ch temp :
  nextchar buf p = (ch, temp) -> ch <> 0 ->
  (p < temp <= length buf)%nat /\ (p < length buf)%nat.
Proof.
  intros Dec NZ.
  assert (unit_at buf p <> 0) as U.
  { intros U. apply nextchar_zero_iff in U. rewrite Dec in U. auto. }
  destruct (nextchar_advances buf p U) as [L _]. rewrite Dec in L.
  cbn [snd] in L. lia.
Qed.

Lemma findfirst_loop_fuel f1 f2 buf p c n :
  (length buf - p < f1)%nat -> (length buf - p < f2)%nat ->
  findfirst_loop f1 buf p c n = findfirst_loop f2 buf p c n.
Proof.
  revert f2 p n. induction f1 as [| f1 IH]; intros [| f2] p n F1 F2; try lia.
  cbn [findfirst_loop]. destruct (0 <? n); [| reflexivity].
  destruct (nextchar buf p) as [ch temp] eqn:Dec.
  destruct (Z.eqb_spec ch 0) as [| NZ]; [reflexivity |].
  destruct (ch =? c); [reflexivity |].
  destruct (nextchar_step _ _ _ _ Dec NZ). apply IH; lia.
Qed.

(** One turn of the loop of [findfirst]. *)
Lemma findfirst_unfold buf str c n :
  findfirst buf str c n =
  if 0 <? n then
    let (ch, temp) := nextchar buf str in
    if ch =? 0 then Some None
    else if ch =? c then Some (Some str)
    else findfirst buf temp c (size_sub n (ptr_diff temp str))
  else Some None.
Proof.
  unfold findfirst at 1. cbn [findfirst_loop]. destruct (0 <? n); [| reflexivity].
  destruct (nextchar buf str) as [ch temp] eqn:Dec.
  destruct (Z.eqb_spec ch 0) as [| NZ]; [reflexivity |].
  destruct (ch =? c); [reflexivity |].
  destruct (nextchar_step _ _ _ _ Dec NZ). apply findfirst_loop_fuel; lia.
Qed.

Lemma findfirst_loop_terminates fuel buf p c n :
  (length buf - p < fuel)%nat -> findfirst_loop fuel buf p c n <> None.
Proof.
  revert p n. induction fuel as [| fuel IH]; intros p n F; [lia |].
  cbn [findfirst_loop]. destruct (0 <? n); [| discriminate].
  destruct (nextchar buf p) as [ch temp] eqn:Dec.
  destruct (Z.eqb_spec ch 0) as [| NZ]; [discriminate |].
  destruct (ch =? c); [discriminate |].
  destruct (nextchar_step _ _ _ _ Dec NZ). apply IH; lia.
Qed.

Lemma decode_from_fuel f1 f2 buf p :
  (length buf - p <= f1)%nat -> (length buf - p <= f2)%nat ->
  decode_from f1 buf p = decode_from f2 buf p.
Proof.
  revert f2 p. induction f1 as [| f1 IH]; intros [| f2] p F1 F2;
    cbn [decode_from]; try reflexivity.
  - destruct (nextchar buf p) as [ch temp] eqn:Dec.
    destruct (Z.eqb_spec ch 0) as [| NZ]; [reflexivity |].
    destruct (nextchar_step _ _ _ _ Dec NZ). lia.
  - destruct (nextchar buf p) as [ch temp] eqn:Dec.
    destruct (Z.eqb_spec ch 0) as [| NZ]; [reflexivity |].
    destruct (nextchar_step _ _ _ _ Dec NZ). lia.
  - destruct (nextchar buf p) as [ch temp] eqn:Dec.
    destruct (Z.eqb_spec ch 0) as [| NZ]; [reflexivity |].
    destruct (nextchar_step _ _ _ _ Dec NZ). f_equal. apply IH; lia.
Qed.

Lemma decode_all_unfold buf p :
  decode_all buf p =
  let (ch, temp) := nextchar buf p in
  if ch =? 0 then [] else (p, ch, temp) :: decode_all buf temp.
Proof.
  unfold decode_all at 1.
  destruct (nextchar buf p) as [ch temp] eqn:Dec.
  destruct (Z.eqb_spec ch 0) as [E0 | NZ].
  - destruct (length buf - p)%nat; cbn [decode_from]; [reflexivity |].
    rewrite Dec. subst ch. reflexivity.
  - destruct (nextchar_step _ _ _ _ Dec NZ).
    replace (length buf - p)%nat with (S (length buf - S p)) by lia.
    cbn [decode_from]. rewrite Dec.
    destruct (Z.eqb_spec ch 0); [contradiction |].
    f_equal. apply decode_from_fuel; lia.
Qed.

(** Induction along the code points of a buffer. *)
Lemma decode_ind buf (P : nat -> Prop) :
  (forall p, (forall ch temp, nextchar buf p = (ch, temp) -> ch <> 0 -> P temp)
             -> P p) ->
  forall p, P p.
Proof.
  intros Step p. remember (length buf - p)%nat as k eqn:Ek.
  revert p Ek. induction k as [k IH] using lt_wf_ind. intros p Ek.
  apply Step. intros ch temp Dec NZ.
  destruct (nextchar_step _ _ _ _ Dec NZ).
  apply (IH (length buf - temp)%nat); [lia | reflexivity].
Qed.

Lemma decode_all_starts buf p e :
  In e (decode_all buf p) -> (p <= cp_start e < cp_next e)%nat.
Proof.
  revert e. pattern p. apply (decode_ind buf). clear p. intros p IH e.
  rewrite decode_all_unfold.
  destruct (nextchar buf p) as [ch temp] eqn:Dec.
  destruct (Z.eqb_spec ch 0) as [| NZ]; [intros [] |].
  destruct (nextchar_step _ _ _ _ Dec NZ).
  intros [<- | I]; [cbn; lia |].
  specialize (IH ch temp eq_refl NZ e I). lia.
Qed.

End FindfirstFacts.

(** ** The searches against the decoded buffer *)

Lemma size_sub_small a b : 0 <= a - b < size_modulus -> size_sub a b = a - b.
Proof. intros H. unfold size_sub. now apply Z.mod_small. Qed.

Lemma examined_all members n adv :
  0 <= adv -> Z.of_nat (length members) * adv < n < size_modulus ->
  examined members n adv = members.
Proof.
  revert n. induction members as [| m ms IH]; intros n A H; [reflexivity |].
  cbn [examined]. cbn [length] in H.
  destruct (Z.ltb_spec 0 n) as [P | P]; [| nia].
  rewrite size_sub_small by nia. rewrite IH; [reflexivity | exact A | nia].
Qed.

Lemma decode_from_length {D : Decoder} fuel buf p :
  (length (decode_from fuel buf p) <= fuel)%nat.
Proof.
  revert p. induction fuel as [| fuel IH]; intros p; cbn [decode_from length];
    [lia |].
  destruct (nextchar buf p) as [ch temp]. destruct (ch =? 0); cbn [length]; [lia |].
  specialize (IH temp). lia.
Qed.

Lemma set_members_length {D : Decoder} charSet set0 :
  (length (set_members charSet set0) <= length charSet)%nat.
Proof.
  unfold set_members, decode_all. rewrite length_map.
  pose proof (decode_from_length (length charSet - set0) charSet set0). lia.
Qed.

Section SearchFacts.

Context {D : Decoder} {DC : DecoderContract D}.

Lemma first_occurrence_unfold buf str c :
  first_occurrence buf str c =
  let (ch, temp) := nextchar buf str in
  if ch =? 0 then None
  else if ch =? c then Some str
  else first_occurrence buf temp c.
Proof.
  unfold first_occurrence. rewrite decode_all_unfold.
  destruct (nextchar buf str) as [ch temp]. destruct (ch =? 0); [reflexivity |].
  cbn [find cp_value fst snd]. destruct (ch =? c); reflexivity.
Qed.

Lemma first_occurrence_ge buf str c p :
  first_occurrence buf str c = Some p -> (str <= p)%nat.
Proof.
  unfold first_occurrence.
  destruct (find _ (decode_all buf str)) as [e |] eqn:F; [| discriminate].
  intros [= <-]. apply find_some in F as [I _].
  apply decode_all_starts in I. lia.
Qed.

(** A bound beyond the distance to the first occurrence finds it. *)
Lemma findfirst_found_beyond buf c p str :
  forall n, first_occurrence buf str c = Some p ->
            ptr_diff p str < n < size_modulus ->
            findfirst buf str c n = Some (Some p).
Proof.
  pattern str. apply (decode_ind buf). clear str. intros str IH n.
  rewrite first_occurrence_unfold, findfirst_unfold.
  destruct (nextchar buf str) as [ch temp] eqn:Dec.
  destruct (Z.eqb_spec ch 0) as [| NZ]; [discriminate |].
  destruct (nextchar_step _ _ _ _ Dec NZ).
  destruct (ch =? c).
  - intros [= <-] B. unfold ptr_diff in B.
    destruct (Z.ltb_spec 0 n); [reflexivity | lia].
  - intros F B. pose proof (first_occurrence_ge _ _ _ _ F). unfold ptr_diff in *.
    destruct (Z.ltb_spec 0 n); [| lia].
    apply (IH ch temp eq_refl NZ); [exact F |].
    rewrite size_sub_small; unfold ptr_diff; lia.
Qed.

(** A bound equal to the distance to the first occurrence stops short of
    it. *)
Lemma findfirst_exact_miss buf c p str :
  first_occurrence buf str c = Some p ->
  ptr_diff p str < size_modulus ->
  findfirst buf str c (ptr_diff p str) = Some None.
Proof.
  pattern str. apply (decode_ind buf). clear str. intros str IH.
  rewrite first_occurrence_unfold, findfirst_unfold.
  destruct (nextchar buf str) as [ch temp] eqn:Dec.
  destruct (Z.eqb_spec ch 0) as [| NZ]; [discriminate |].
  destruct (nextchar_step _ _ _ _ Dec NZ).
  destruct (ch =? c).
  - intros [= <-] B. unfold ptr_diff. now rewrite Z.sub_diag.
  - intros F B. pose proof (first_occurrence_ge _ _ _ _ F). unfold ptr_diff in *.
    destruct (Z.ltb_spec 0 (Z.of_nat p - Z.of_nat str)); [| reflexivity].
    rewrite size_sub_small by (unfold ptr_diff; lia).
    replace (Z.of_nat p - Z.of_nat str - (Z.of_nat temp - Z.of_nat str))
      with (Z.of_nat p - Z.of_nat temp) by lia.
    apply (IH ch temp eq_refl NZ); [exact F | lia].
Qed.

(** The inner loop compares the source code point with the examined
    members, and with those only. *)
Lemma findfirstof_set_loop_spec fuel charSet p n ch adv :
  (length charSet - p < fuel)%nat ->
  findfirstof_set_loop fuel charSet p n ch adv =
  Some (is_member (examined (set_members charSet p) n adv) ch).
Proof.
  revert p n. induction fuel as [| fuel IH]; intros p n F; [lia |].
  cbn [findfirstof_set_loop]. unfold set_members. rewrite decode_all_unfold.
  destruct (nextchar charSet p) as [ch2 temp] eqn:Dec.
  destruct (Z.eqb_spec ch2 0) as [| NZ].
  - destruct (0 <? n); reflexivity.
  - cbn [map cp_value fst snd examined].
    destruct (0 <? n); [| reflexivity].
    cbn [is_member existsb]. destruct (ch2 =? ch); [reflexivity |].
    destruct (nextchar_step _ _ _ _ Dec NZ).
    rewrite IH by lia. reflexivity.
Qed.

Lemma findfirstof_loop_fuel f1 f2 buf p charSet set0 n sn :
  (length buf - p < f1)%nat -> (length buf - p < f2)%nat ->
  findfirstof_loop f1 buf p charSet set0 n sn =
  findfirstof_loop f2 buf p charSet set0 n sn.
Proof.
  revert f2 p n. induction f1 as [| f1 IH]; intros [| f2] p n F1 F2; try lia.
  cbn [findfirstof_loop]. destruct (0 <? n); [| reflexivity].
  destruct (nextchar buf p) as [ch temp] eqn:Dec.
  destruct (Z.eqb_spec ch 0) as [| NZ]; [reflexivity |].
  destruct (findfirstof_set_loop _ _ _ _ _ _) as [[|] |]; try reflexivity.
  destruct (nextchar_step _ _ _ _ Dec NZ). apply IH; lia.
Qed.

(** One turn of the outer loop of [findfirstof]. *)
Lemma findfirstof_unfold buf str charSet set0 n sn :
  findfirstof buf str charSet set0 n sn =
  if 0 <? n then
    let (ch, temp) := nextchar buf str in
    if ch =? 0 then Some None
    else if is_member (examined (set_members charSet set0) sn
                                (ptr_diff temp str)) ch
         then Some (Some str)
         else findfirstof buf temp charSet set0
                          (size_sub n (ptr_diff temp str)) sn
  else Some None.
Proof.
  unfold findfirstof at 1. cbn [findfirstof_loop].
  destruct (0 <? n); [| reflexivity].
  destruct (nextchar buf str) as [ch temp] eqn:Dec.
  destruct (Z.eqb_spec ch 0) as [| NZ]; [reflexivity |].
  rewrite findfirstof_set_loop_spec by lia.
  destruct (is_member _ _); [reflexivity |].
  destruct (nextchar_step _ _ _ _ Dec NZ). apply findfirstof_loop_fuel; lia.
Qed.

Lemma first_of_set_unfold buf str limit members :
  first_of_set buf str limit members =
  let (ch, temp) := nextchar buf str in
  if ch =? 0 then None
  else if (Z.of_nat str <? limit) && is_member members ch then Some str
  else first_of_set buf temp limit members.
Proof.
  unfold first_of_set. rewrite decode_all_unfold.
  destruct (nextchar buf str) as [ch temp]. destruct (ch =? 0); [reflexivity |].
  cbn [find].
  change (within limit (str, ch, temp)) with (Z.of_nat str <? limit).
  change (cp_value (str, ch, temp)) with ch.
  destruct ((Z.of_nat str <? limit) && is_member members ch); reflexivity.
Qed.

Lemma first_of_set_past_limit buf str limit members :
  limit <= Z.of_nat str -> first_of_set buf str limit members = None.
Proof.
  intros L. unfold first_of_set.
  destruct (find _ (decode_all buf str)) as [e |] eqn:F; [| reflexivity].
  apply find_some in F as [I T]. apply decode_all_starts in I.
  unfold within in T. lia.
Qed.

(** With a source bound that no code point straddles and a set budget that
    does not run out, [findfirstof] returns the first source code point
    before the bound that is a member of the set. *)
Lemma findfirstof_spec buf charSet set0 sn limit str :
  Z.of_nat (length charSet) * Z.of_nat (length buf) < sn < size_modulus ->
  forall n, 0 <= n < size_modulus -> limit = Z.of_nat str + n ->
            forallb (fun e => negb (straddles limit e)) (decode_all buf str) = true ->
            findfirstof buf str charSet set0 n sn =
            Some (first_of_set buf str limit (set_members charSet set0)).
Proof.
  intros SN. pattern str. apply (decode_ind buf). clear str. intros str IH n N L.
  rewrite findfirstof_unfold, first_of_set_unfold, decode_all_unfold.
  destruct (nextchar buf str) as [ch temp] eqn:Dec.
  destruct (Z.ltb_spec 0 n) as [P | P].
  - destruct (Z.eqb_spec ch 0) as [| NZ]; [reflexivity |].
    destruct (nextchar_step _ _ _ _ Dec NZ).
    cbn [forallb]. intros NS. apply andb_prop in NS as [NS1 NS].
    unfold straddles, within in NS1. cbn [cp_start cp_next fst snd] in NS1.
    pose proof (set_members_length charSet set0) as ML.
    rewrite examined_all by (unfold ptr_diff; nia).
    replace (Z.of_nat str <? limit) with true by lia. cbn [andb].
    destruct (is_member _ ch); [reflexivity |].
    apply (IH ch temp eq_refl NZ); [| | exact NS];
      rewrite size_sub_small; unfold ptr_diff; lia.
  - intros _. assert (n = 0) by lia. subst n.
    destruct (Z.eqb_spec ch 0) as [| NZ]; [reflexivity |].
    replace (Z.of_nat str <? limit) with false by lia. cbn [andb].
    destruct (nextchar_step _ _ _ _ Dec NZ).
    rewrite first_of_set_past_limit by lia. reflexivity.
Qed.

End SearchFacts.

Section MoreFacts.

Context {D : Decoder} {DC : DecoderContract D}.

Lemma decode_all_bounds buf p e :
  In e (decode_all buf p) ->
  (p <= cp_start e < cp_next e)%nat /\ (cp_next e <= length buf)%nat.
Proof.
  revert e. pattern p. apply (decode_ind buf). clear p. intros p IH e.
  rewrite decode_all_unfold.
  destruct (nextchar buf p) as [ch temp] eqn:Dec.
  destruct (Z.eqb_spec ch 0) as [| NZ]; [intros [] |].
  destruct (nextchar_step _ _ _ _ Dec NZ).
  intros [<- | I]; [cbn; lia |].
  specialize (IH ch temp eq_refl NZ e I). lia.
Qed.

Lemma no_straddle_beyond_buffer buf str limit :
  Z.of_nat (length buf) <= limit ->
  forallb (fun e => negb (straddles limit e)) (decode_all buf str) = true.
Proof.
  intros L. apply forallb_forall. intros e I.
  apply decode_all_bounds in I. unfold straddles, within. lia.
Qed.

Lemma first_of_set_beyond_buffer buf str limit members :
  Z.of_nat (length buf) <= limit ->
  first_of_set buf str limit members =
  option_map cp_start
    (find (fun e => is_member members (cp_value e)) (decode_all buf str)).
Proof.
  intros L. unfold first_of_set.
  assert (forall e, In e (decode_all buf str) -> within limit e = true) as W.
  { intros e I. apply decode_all_bounds in I. unfold within. lia. }
  induction (decode_all buf str) as [| e l IH]; [reflexivity |].
  cbn [find]. rewrite (W e) by now left. cbn [andb].
  destruct (is_member members (cp_value e)); [reflexivity |].
  apply IH. intros e' I. apply W. now right.
Qed.

End MoreFacts.

(** The single code point search stays within its own bound: with a bound
    that no code point straddles, the cursor it returns lies before the
    bound. *)
Lemma findfirst_within_bound {D : Decoder} {DC : DecoderContract D}
    buf c p str :
  forall n, 0 <= n < size_modulus ->
            forallb (fun e => negb (straddles (Z.of_nat str + n) e))
                    (decode_all buf str) = true ->
            findfirst buf str c n = Some (Some p) ->
            Z.of_nat p < Z.of_nat str + n.
Proof.
  pattern str. apply (decode_ind buf). clear str. intros str IH n N.
  rewrite findfirst_unfold, decode_all_unfold.
  destruct (Z.ltb_spec 0 n) as [P | P]; [| discriminate].
  destruct (nextchar buf str) as [ch temp] eqn:Dec.
  destruct (Z.eqb_spec ch 0) as [| NZ]; [discriminate |].
  destruct (nextchar_step _ _ _ _ Dec NZ).
  cbn [forallb]. intros NS. apply andb_prop in NS as [NS1 NS].
  unfold straddles, within in NS1. cbn [cp_start cp_next fst snd] in NS1.
  destruct (ch =? c); [intros [= <-]; lia |].
  intros R.
  assert (size_sub n (ptr_diff temp str) = n - ptr_diff temp str) as E
    by (apply size_sub_small; unfold ptr_diff; lia).
  rewrite E in R.
  apply (IH ch temp eq_refl NZ) in R; unfold ptr_diff in *; try lia.
  replace (Z.of_nat temp + (n - (Z.of_nat temp - Z.of_nat str)))
    with (Z.of_nat str + n) by lia.
  exact NS.
Qed.

(** ** The searches return *)

Section Termination.

Context {D : Decoder} {DC : DecoderContract D} {C : Comparator}.

(** Decode at [p] and split on the terminator. *)
Ltac decode_at buf p :=
  let ch := fresh "ch" in
  let temp := fresh "temp" in
  let Dec := fresh "Dec" in
  let NZ := fresh "NZ" in
  destruct (nextchar buf p) as [ch temp] eqn:Dec;
  destruct (Z.eqb_spec ch 0) as [| NZ];
  [| pose proof (nextchar_step _ _ _ _ Dec NZ)].

Lemma findfirstof_loop_terminates fuel buf p charSet set0 n sn :
  (length buf - p < fuel)%nat ->
  findfirstof_loop fuel buf p charSet set0 n sn <> None.
Proof.
  revert p n. induction fuel as [| fuel IH]; intros p n F; [lia |].
  cbn [findfirstof_loop]. destruct (0 <? n); [| discriminate].
  decode_at buf p; [discriminate |].
  rewrite findfirstof_set_loop_spec by lia.
  destruct (is_member _ _); [discriminate | apply IH; lia].
Qed.

(** A cursor returned by [findfirst] is at or after the cursor received and
    stands on the target, which is not the terminator. *)
Lemma findfirst_result buf c p str :
  forall n, findfirst buf str c n = Some (Some p) ->
            (str <= p)%nat /\ fst (nextchar buf p) = c /\ c <> 0.
Proof.
  pattern str. apply (decode_ind buf). clear str. intros str IH n.
  rewrite findfirst_unfold. destruct (0 <? n); [| discriminate].
  decode_at buf str; [discriminate |].
  destruct (Z.eqb_spec ch c) as [<- | Ne].
  - intros [= <-]. rewrite Dec. auto.
  - intros R. destruct (IH ch temp eq_refl NZ _ R) as (L & V). split; [lia | exact V].
Qed.

Lemma findfirst_sub_loop_terminates fuel buf1 str1 buf2 str2 c n1 n2 :
  (length buf1 - str1 < fuel)%nat ->
  findfirst_sub_loop fuel buf1 str1 buf2 str2 c n1 n2 <> None.
Proof.
  revert str1. induction fuel as [| fuel IH]; intros str1 F; [lia |].
  cbn [findfirst_sub_loop].
  pose proof (findfirst_loop_terminates (S (length buf1 - str1)) buf1 str1 c n1
                                        ltac:(lia)) as T.
  fold (findfirst buf1 str1 c n1) in T.
  destruct (findfirst buf1 str1 c n1) as [[found |] |] eqn:R;
    [| discriminate | contradiction].
  destruct (compare buf1 found buf2 str2 n2 =? 0); [discriminate |].
  destruct (findfirst_result _ _ _ _ _ R) as (L & V & NZ).
  destruct (nextchar buf1 found) as [ch temp] eqn:Dec. cbn [fst snd] in *.
  subst c. destruct (nextchar_step _ _ _ _ Dec NZ).
  apply IH. lia.
Qed.

(** Each search returns a cursor or [NULL]. *)
Lemma searches_return buf str charSet set0 buf2 str2 c n sn :
  findfirst buf str c n <> None /\
  findfirstof buf str charSet set0 n sn <> None /\
  findfirst_sub buf str buf2 str2 n sn <> None.
Proof.
  repeat split.
  - apply findfirst_loop_terminates. lia.
  - apply findfirstof_loop_terminates. lia.
  - unfold findfirst_sub. destruct (_ || _); [discriminate |].
    apply findfirst_sub_loop_terminates. lia.
Qed.

End Termination.

(** * The claims *)

(** C1. Repeated calls of [nextline] from the first unit of a buffer return
    views that partition it: the call at the terminator, and no call before
    it, returns false; each view starts at the cursor its call received and
    ends before a line feed or a carriage return and line feed that the
    cursor steps over (only the last view may end on the terminator); and
    the views concatenated, each followed by the units its call stepped
    over, are the buffer up to its terminator. *)
Theorem nextline_partitions_buffer {D : Decoder} (DC : DecoderContract D)
    (buf : list Z) (line : reference_string) :
  exists ls,
    all_lines (S (length buf)) buf line 0 = Some (ls, length_ buf 0) /\
    chained buf 0 ls (length_ buf 0) /\
    concat (map (fun lc => line_units buf lc ++ delim_units buf lc) ls)
    = firstn (length_ buf 0) buf /\
    unit_at buf (length_ buf 0) = 0.
Proof.
  destruct (all_lines_spec (S (length buf)) buf line 0) as (ls & A & Ch & Cat);
    [lia |].
  cbn [Nat.add] in *. exists ls. rewrite slice_from_zero in Cat.
  repeat split; try assumption.
  apply (length_terminator buf 0).
Qed.

Lemma nextline_partitions_buffer_witness :
  exists ls,
    all_lines (D := utf8) 5 [97; 13; 10; 98] {| start := 0; end_ := 0 |} 0
    = Some (ls, 4%nat) /\
    chained [97; 13; 10; 98] 0 ls 4 /\
    concat (map (fun lc => line_units [97; 13; 10; 98] lc
                           ++ delim_units [97; 13; 10; 98] lc) ls)
    = [97; 13; 10; 98] /\
    unit_at [97; 13; 10; 98] 4 = 0.
Proof.
  exact (nextline_partitions_buffer utf8_contract [97; 13; 10; 98]
                                    {| start := 0; end_ := 0 |}).
Defined.

(** C3. Within a line, a carriage return that a line feed follows is one
    delimiter: the view ends before the carriage return and the cursor is
    moved past both units.  A carriage return that no line feed follows does
    not end the line: the view extends past it.  The buffer "a\r\nb" splits
    into "a" and "b", the buffer "a\rb" is the single line "a\rb". *)
Theorem nextline_crlf_single_delimiter :
  (forall (D : Decoder) (DC : DecoderContract D) buf line str p,
      unit_at buf str <> 0 -> (str <= p)%nat ->
      (forall i, (str <= i < p)%nat -> is_break buf i = false) ->
      unit_at buf p = 13 ->
      if unit_at buf (S p) =? 10
      then nextline buf line str
           = Some (true, {| start := str; end_ := p |}, S (S p))
      else exists e c,
             nextline buf line str
             = Some (true, {| start := str; end_ := e |}, c) /\ (p < e)%nat)
  /\ split_lines (D := utf8) [97; 13; 10; 98] = Some [[97]; [98]]
  /\ split_lines (D := fixed_width) [97; 13; 10; 98] = Some [[97]; [98]]
  /\ split_lines (D := utf8) [97; 13; 98] = Some [[97; 13; 98]]
  /\ split_lines (D := fixed_width) [97; 13; 98] = Some [[97; 13; 98]].
Proof.
  split; [| repeat split; reflexivity].
  intros D DC buf line str p NZ L NB E13.
  rewrite (nextline_spec buf line str NZ).
  rewrite (find_break_skip buf str p L NB).
  rewrite (find_break_unfold buf p). unfold is_break. rewrite E13.
  destruct (Z.eqb_spec (unit_at buf (S p)) 10) as [E10 | N10];
    cbn [Z.eqb Pos.eqb orb andb].
  - unfold delim_width. rewrite E13. cbn [Z.eqb Pos.eqb]. do 2 f_equal. lia.
  - destruct (find_break_spec buf (S p)) as (Ls & _ & _).
    eexists _, _. split; [reflexivity | lia].
Qed.

Lemma nextline_crlf_single_delimiter_witness :
  nextline (D := utf8) [97; 13; 10; 98] {| start := 7; end_ := 9 |} 0
  = Some (true, {| start := 0; end_ := 1 |}, 3%nat).
Proof.
  refine (proj1 nextline_crlf_single_delimiter utf8 utf8_contract
                [97; 13; 10; 98] {| start := 7; end_ := 9 |} 0%nat 1%nat
                _ _ _ _).
  - vm_compute. discriminate.
  - lia.
  - intros i Hi. assert (i = 0%nat) as -> by lia. reflexivity.
  - reflexivity.
Defined.

(** C4. [nextline] returns false exactly when the cursor is on the
    terminator.  On any other unit it returns true with a view that starts
    at the cursor; when no delimiter lies between the cursor and the
    terminator, the view is the whole remainder, the cursor is left on the
    terminator, and the call that follows returns false. *)
Theorem nextline_false_iff_terminator {D : Decoder} (DC : DecoderContract D)
    (buf : list Z) (line : reference_string) (str : nat) :
  ((exists line' str', nextline buf line str = Some (false, line', str'))
   <-> unit_at buf str = 0) /\
  (unit_at buf str <> 0 ->
   exists e c, nextline buf line str
               = Some (true, {| start := str; end_ := e |}, c)) /\
  (unit_at buf str <> 0 ->
   let term := (str + length_ buf str)%nat in
   (forall i, (str <= i < term)%nat -> is_break buf i = false) ->
   nextline buf line str = Some (true, {| start := str; end_ := term |}, term) /\
   unit_at buf term = 0 /\
   forall line', nextline buf line' term = Some (false, line', term)).
Proof.
  repeat split.
  - intros (line' & str' & R). unfold nextline in R.
    destruct (Z.eqb_spec (unit_at buf str) 0) as [E | NZ]; [exact E |].
    apply nextline_loop_true in R. discriminate.
  - intros E. exists line, str. unfold nextline. now rewrite E.
  - intros NZ. rewrite (nextline_spec buf line str NZ). eauto.
  - rewrite (nextline_spec buf line str H).
    pose proof (length_terminator buf str) as T.
    rewrite (find_break_skip buf str (str + length_ buf str)); [| lia | exact H0].
    rewrite find_break_unfold. unfold is_break, delim_width. rewrite T.
    cbn [Z.eqb orb]. rewrite T. cbn [Z.eqb]. now rewrite Nat.add_0_r.
  - apply length_terminator.
  - intros line'. unfold nextline. now rewrite length_terminator.
Qed.

Lemma nextline_false_iff_terminator_witness :
  nextline (D := utf8) [97; 13; 98] {| start := 7; end_ := 9 |} 0
  = Some (true, {| start := 0; end_ := 3 |}, 3%nat) /\
  unit_at [97; 13; 98] 3 = 0 /\
  forall line', nextline (D := utf8) [97; 13; 98] line' 3 = Some (false, line', 3%nat).
Proof.
  refine (proj2 (proj2 (nextline_false_iff_terminator
                          utf8_contract [97; 13; 98]
                          {| start := 7; end_ := 9 |} 0%nat)) _ _).
  - vm_compute. discriminate.
  - intros i Hi.
    assert (i = 0 \/ i = 1 \/ i = 2)%nat as [-> | [-> | ->]]
      by (vm_compute in Hi; lia); reflexivity.
Defined.

(** C9. A call of [nextline] that returns false has written neither end of
    the view nor the cursor: the test of the unit under the cursor comes
    before every assignment. *)
Theorem nextline_false_leaves_state {D : Decoder} (buf : list Z)
    (line line' : reference_string) (str str' : nat) :
  nextline buf line str = Some (false, line', str') ->
  line' = line /\ str' = str /\ unit_at buf str = 0.
Proof.
  unfold nextline. destruct (Z.eqb_spec (unit_at buf str) 0) as [E | NZ].
  - intros [= <- <-]. auto.
  - intros R. apply nextline_loop_true in R. discriminate.
Qed.

Lemma nextline_false_leaves_state_witness :
  nextline (D := utf8) [97; 10] {| start := 7; end_ := 9 |} 2
  = Some (false, {| start := 7; end_ := 9 |}, 2%nat) /\
  ({| start := 7; end_ := 9 |} = {| start := 7; end_ := 9 |} /\
   2%nat = 2%nat /\ unit_at [97; 10] 2 = 0).
Proof.
  split; [reflexivity |].
  apply (nextline_false_leaves_state (D := utf8) [97; 10]
           {| start := 7; end_ := 9 |} {| start := 7; end_ := 9 |} 2 2).
  reflexivity.
Defined.

(** C2, as amended.  The bound of [findfirst] is a budget of code units:
    it is tested for being positive before each code point is decoded and
    reduced by the units the decoded code point took.  A code point whose
    leading unit lies within the budget is decoded whole and is returned
    when it is the target, also when its units straddle the bound.  So,
    with the first occurrence of the target at a distance of [d] units,
    every bound above [d] finds it and the bound [d] does not, whatever
    the number of units of the target. *)
Theorem findfirst_bound_is_budget {D : Decoder} (DC : DecoderContract D)
    (buf : list Z) (str : nat) (character : Z) :
  (forall n,
      findfirst buf str character n =
      if 0 <? n then
        let (ch, temp) := nextchar buf str in
        if ch =? 0 then Some None
        else if ch =? character then Some (Some str)
        else findfirst buf temp character (size_sub n (ptr_diff temp str))
      else Some None) /\
  (forall p,
      first_occurrence buf str character = Some p ->
      (forall n, ptr_diff p str < n < size_modulus ->
                 findfirst buf str character n = Some (Some p)) /\
      (ptr_diff p str < size_modulus ->
       findfirst buf str character (ptr_diff p str) = Some None)).
Proof.
  split.
  - intros n. apply findfirst_unfold.
  - intros p F. split.
    + intros n B. now apply findfirst_found_beyond.
    + intros B. now apply findfirst_exact_miss.
Qed.

(** The two-unit code point U+00E9 after "a": the bound 2 reaches its
    leading unit only, and finds it; the bound 1 does not. *)
Lemma findfirst_bound_is_budget_witness :
  findfirst (D := utf8) [97; 195; 169] 0 233 2 = Some (Some 1%nat) /\
  findfirst (D := utf8) [97; 195; 169] 0 233 1 = Some None.
Proof.
  destruct (proj2 (findfirst_bound_is_budget utf8_contract
                     [97; 195; 169] 0%nat 233) 1%nat eq_refl) as [Above At].
  split.
  - apply (Above 2). vm_compute. split; reflexivity.
  - apply At. reflexivity.
Defined.

(** C2, as stated, fails: with the bound 1, the two-unit code point U+00E9
    at the start of the buffer straddles the bound and is returned. *)
Lemma findfirst_matches_straddling : ~ never_matches_straddling utf8.
Proof.
  intros H. apply (H [195; 169] 0%nat 233 1 0%nat); reflexivity.
Qed.

(** C5.  The claim fails on the code: the search for the leading code
    point is restarted, after a mismatch, with the bound it was first
    given.  In "aXab" with the bound 2 the needle "ab" is found at index 2:
    the second search, from index 1 with the bound 2, reads the unit at
    index 2 and returns its cursor.  A haystack with the same two first
    units and another unit at index 2 gives another result. *)
Theorem findfirst_sub_restarts_with_full_bound :
  findfirst_sub (D := fixed_width) (C := ordinal)
                [97; 88; 97; 98] 0 [97; 98] 0 2 2 = Some (Some 2%nat) /\
  findfirst (D := fixed_width) [97; 88; 97; 98] 0 97 2 = Some (Some 0%nat) /\
  compare (Comparator := ordinal) [97; 88; 97; 98] 0 [97; 98] 0 2 <> 0 /\
  snd (nextchar (Decoder := fixed_width) [97; 88; 97; 98] 0) = 1%nat /\
  findfirst (D := fixed_width) [97; 88; 97; 98] 1 97 2 = Some (Some 2%nat) /\
  findfirst_sub (D := fixed_width) (C := ordinal)
                [97; 88; 99; 98] 0 [97; 98] 0 2 2 = Some None /\
  firstn 2 [97; 88; 97; 98] = firstn 2 [97; 88; 99; 98].
Proof.
  repeat split; try reflexivity. vm_compute. discriminate.
Qed.

(** C8. With an empty needle, a needle length of zero or a needle that
    starts with the terminator, the string search returns the cursor of the
    haystack as it received it. *)
Theorem findfirst_sub_empty_needle {D : Decoder} {C : Comparator}
    (buf1 : list Z) (str1 : nat) (buf2 : list Z) (str2 : nat)
    (str1Length str2Length : Z) :
  str2Length = 0 \/ unit_at buf2 str2 = 0 ->
  findfirst_sub buf1 str1 buf2 str2 str1Length str2Length = Some (Some str1).
Proof.
  intros [E | E]; unfold findfirst_sub; rewrite E; [reflexivity |].
  now rewrite orb_true_r.
Qed.

Lemma findfirst_sub_empty_needle_witness :
  findfirst_sub (D := utf8) (C := ordinal) hello 3 [] 0 size_max size_max
  = Some (Some 3%nat) /\
  findfirst_sub (D := utf8) (C := ordinal) hello 3 [111] 0 size_max 0
  = Some (Some 3%nat).
Proof.
  split.
  - apply findfirst_sub_empty_needle. right. reflexivity.
  - apply findfirst_sub_empty_needle. left. reflexivity.
Defined.

(** C10. With the terminator as the target, [findfirst] returns no cursor:
    the loop leaves on the terminator before the comparison with the
    target. *)
Theorem findfirst_never_finds_terminator {D : Decoder} (buf : list Z)
    (str : nat) (strLength : Z) :
  (forall p, findfirst buf str 0 strLength <> Some (Some p)) /\
  (DecoderContract D -> findfirst buf str 0 strLength = Some None).
Proof.
  assert (forall p, findfirst buf str 0 strLength <> Some (Some p)) as Never
    by (intros p; apply findfirst_loop_never_zero).
  split; [exact Never |].
  intros DC. unfold findfirst in *.
  pose proof (findfirst_loop_terminates (S (length buf - str)) buf str 0
                                        strLength ltac:(lia)) as T.
  destruct (findfirst_loop _ buf str 0 strLength) as [[p |] |];
    [now destruct (Never p) | reflexivity | contradiction].
Qed.

Lemma findfirst_never_finds_terminator_witness :
  findfirst (D := utf8) hello 0 0 size_max = Some None.
Proof.
  exact (proj2 (findfirst_never_finds_terminator (D := utf8) hello 0 size_max)
               utf8_contract).
Defined.

(** C6.  The claim fails on the code.  In the UTF-8 source "h", U+00E9,
    "llo" (six units) with the set "lb" followed by U+00E9 (four units) and
    the bounds 6 and 4, the lengths of the two strings, U+00E9 at index 1
    is the first code point of the source that is a member of the set, and
    no code point straddles a bound.  The set budget is reduced by the two
    units of the source code point after each member, so that of the three
    members only "l" and "b" are compared with it; the call returns index
    3, the first "l".  With the default bounds it returns index 1. *)
Theorem findfirstof_skips_earlier_member :
  findfirstof (D := utf8) [104; 195; 169; 108; 108; 111] 0
              [108; 98; 195; 169] 0 6 4 = Some (Some 3%nat) /\
  Z.of_nat (length_ [104; 195; 169; 108; 108; 111] 0) = 6 /\
  Z.of_nat (length_ [108; 98; 195; 169] 0) = 4 /\
  decode_all (D := utf8) [104; 195; 169; 108; 108; 111] 0
  = [(0%nat, 104, 1%nat); (1%nat, 233, 3%nat); (3%nat, 108, 4%nat);
     (4%nat, 108, 5%nat); (5%nat, 111, 6%nat)] /\
  set_members (D := utf8) [108; 98; 195; 169] 0 = [108; 98; 233] /\
  first_of_set (D := utf8) [104; 195; 169; 108; 108; 111] 0 6 [108; 98; 233]
  = Some 1%nat /\
  examined [108; 98; 233] 4 (ptr_diff 3 1) = [108; 98] /\
  findfirstof (D := utf8) [104; 195; 169; 108; 108; 111] 0
              [108; 98; 195; 169] 0 size_max size_max = Some (Some 1%nat).
Proof. repeat split; reflexivity. Qed.

(** C7. In the inner loop of [findfirstof] the budget of the set is
    reduced, after each member, by the units the source code point took,
    and not by the units of the member: the members compared with a source
    code point are those that [examined] keeps for that advance.  With the
    two-unit source code point U+00E9 and the set "ab" followed by U+00E9,
    four units in all, the set bound 4 is used up after two members and the
    third, the source code point itself, is not reached. *)
Theorem findfirstof_set_budget_follows_source :
  (forall (D : Decoder) (DC : DecoderContract D) buf str charSet set0
          strLength setLength ch temp,
      0 < strLength -> nextchar buf str = (ch, temp) -> ch <> 0 ->
      findfirstof buf str charSet set0 strLength setLength =
      if is_member (examined (set_members charSet set0) setLength
                             (ptr_diff temp str)) ch
      then Some (Some str)
      else findfirstof buf temp charSet set0
                       (size_sub strLength (ptr_diff temp str)) setLength) /\
  set_members (D := utf8) [97; 98; 195; 169] 0 = [97; 98; 233] /\
  examined [97; 98; 233] 4 2 = [97; 98] /\
  findfirstof (D := utf8) [195; 169] 0 [97; 98; 195; 169] 0 size_max 4
  = Some None /\
  findfirstof (D := utf8) [195; 169] 0 [97; 98; 195; 169] 0 size_max size_max
  = Some (Some 0%nat).
Proof.
  split; [| repeat split; reflexivity].
  intros D DC buf str charSet set0 n sn ch temp P Dec NZ.
  rewrite findfirstof_unfold, Dec.
  destruct (Z.ltb_spec 0 n); [| lia].
  destruct (Z.eqb_spec ch 0); [contradiction | reflexivity].
Qed.

Lemma findfirstof_set_budget_follows_source_witness :
  findfirstof (D := utf8) [195; 169; 98] 0 [97; 98; 195; 169] 0 size_max 4 =
  findfirstof (D := utf8) [195; 169; 98] 2 [97; 98; 195; 169] 0
              (size_sub size_max 2) 4.
Proof.
  refine (proj1 findfirstof_set_budget_follows_source utf8 utf8_contract
                [195; 169; 98] 0%nat [97; 98; 195; 169] 0%nat size_max 4
                233 2%nat _ _ _).
  - reflexivity.
  - reflexivity.
  - discriminate.
Defined.

(** * Further properties *)

(** ** [nextline] *)

Lemma nextline_loop_start {D : Decoder} fuel buf line p b line' str' :
  nextline_loop fuel buf line p = Some (b, line', str') ->
  start line' = start line.
Proof.
  revert p. induction fuel as [| fuel IH]; intros p; cbn [nextline_loop];
    [discriminate |].
  destruct (nextchar buf p) as [ch temp].
  destruct (ch =? 0); [now intros [= _ <- _] |].
  destruct (ch =? 13).
  - destruct (nextchar buf temp) as [ch2 temp2].
    destruct (ch2 =? 10); [now intros [= _ <- _] | apply IH].
  - destruct (ch =? 10); [now intros [= _ <- _] | apply IH].
Qed.

(** A successful call amounts to the first break after the cursor. *)
Lemma nextline_true_inv {D : Decoder} {DC : DecoderContract D}
    buf line str line' str' :
  nextline buf line str = Some (true, line', str') ->
  unit_at buf str <> 0 /\
  line' = {| start := str; end_ := find_break buf str |} /\
  str' = (find_break buf str + delim_width buf (find_break buf str))%nat.
Proof.
  intros R. destruct (Z.eq_dec (unit_at buf str) 0) as [E | NZ].
  - unfold nextline in R. rewrite E in R. discriminate.
  - rewrite (nextline_spec buf line str NZ) in R. injection R as <- <-. auto.
Qed.

(** X1. Whatever the decoder, a call that returns true has set the start of
    the view to the cursor it received. *)
Theorem nextline_start_is_cursor {D : Decoder} (buf : list Z)
    (line line' : reference_string) (str str' : nat) :
  nextline buf line str = Some (true, line', str') -> start line' = str.
Proof.
  unfold nextline. destruct (unit_at buf str =? 0); [discriminate |].
  intros R. apply nextline_loop_start in R. exact R.
Qed.

Lemma nextline_start_is_cursor_witness :
  nextline (D := utf8) [120; 97; 10; 98] {| start := 7; end_ := 9 |} 1
  = Some (true, {| start := 1; end_ := 2 |}, 3%nat) /\
  start {| start := 1; end_ := 2 |} = 1%nat.
Proof.
  split; [reflexivity |].
  apply (nextline_start_is_cursor (D := utf8) [120; 97; 10; 98]
           {| start := 7; end_ := 9 |} {| start := 1; end_ := 2 |} 1 3).
  reflexivity.
Defined.

(** X2. A call that returns true moves the cursor forward by at least one
    unit and never past the terminator: the view lies between the old and
    the new cursor, and no unit from the old cursor up to the new one is
    the terminator. *)
Theorem nextline_advances {D : Decoder} (DC : DecoderContract D)
    (buf : list Z) (line line' : reference_string) (str str' : nat) :
  nextline buf line str = Some (true, line', str') ->
  (str <= end_ line' <= str')%nat /\
  (str < str' <= length buf)%nat /\
  forall i, (str <= i < str')%nat -> unit_at buf i <> 0.
Proof.
  intros R. apply nextline_true_inv in R as (NZ & -> & ->). cbn [end_].
  destruct (break_step buf str NZ) as (Le & Lc & NZs & _).
  repeat split; try lia; [| exact NZs].
  assert (forall c, (str < c)%nat ->
                    (forall i, (str <= i < c)%nat -> unit_at buf i <> 0) ->
                    (c <= length buf)%nat) as Bound.
  { intros [| c] L Hc; [lia |].
    specialize (Hc c ltac:(lia)). apply unit_at_nonzero_lt in Hc. lia. }
  now apply Bound.
Qed.

Lemma nextline_advances_witness :
  (0 <= 1 <= 3)%nat /\ (0 < 3 <= 4)%nat /\
  forall i, (0 <= i < 3)%nat -> unit_at [97; 13; 10; 98] i <> 0.
Proof.
  apply (nextline_advances utf8_contract [97; 13; 10; 98]
           {| start := 7; end_ := 9 |} {| start := 0; end_ := 1 |} 0 3).
  reflexivity.
Defined.

(** X3. The view of a call that returns true holds no delimiter: none of its
    units is the terminator or a line feed, none is a carriage return that
    a line feed follows, and the view ends on the first unit after the
    cursor that is one of these. *)
Theorem nextline_line_has_no_delimiter {D : Decoder} (DC : DecoderContract D)
    (buf : list Z) (line line' : reference_string) (str str' : nat) :
  nextline buf line str = Some (true, line', str') ->
  (forall i, (start line' <= i < end_ line')%nat ->
             unit_at buf i <> 0 /\ unit_at buf i <> 10 /\
             (unit_at buf i = 13 -> unit_at buf (S i) <> 10)) /\
  (unit_at buf (end_ line') = 0 \/ unit_at buf (end_ line') = 10 \/
   (unit_at buf (end_ line') = 13 /\ unit_at buf (S (end_ line')) = 10)).
Proof.
  intros R. apply nextline_true_inv in R as (NZ & -> & ->). cbn [start end_].
  destruct (find_break_spec buf str) as (L & B & NB).
  split.
  - intros i Hi. specialize (NB i Hi). unfold is_break in NB. lia.
  - unfold is_break in B. lia.
Qed.

Lemma nextline_line_has_no_delimiter_witness :
  (forall i, (0 <= i < 2)%nat ->
             unit_at [97; 13; 13; 10; 98] i <> 0 /\
             unit_at [97; 13; 13; 10; 98] i <> 10 /\
             (unit_at [97; 13; 13; 10; 98] i = 13 ->
              unit_at [97; 13; 13; 10; 98] (S i) <> 10)) /\
  (unit_at [97; 13; 13; 10; 98] 2 = 0 \/ unit_at [97; 13; 13; 10; 98] 2 = 10 \/
   (unit_at [97; 13; 13; 10; 98] 2 = 13 /\ unit_at [97; 13; 13; 10; 98] 3 = 10)).
Proof.
  apply (nextline_line_has_no_delimiter utf8_contract [97; 13; 13; 10; 98]
           {| start := 7; end_ := 9 |} {| start := 0; end_ := 2 |} 0 4).
  reflexivity.
Defined.

(** X4. The lines do not depend on the decoder: two decoders that meet the
    contract give the same views and the same cursors, call after call. *)
Theorem all_lines_decoder_independent (D1 D2 : Decoder)
    (DC1 : DecoderContract D1) (DC2 : DecoderContract D2)
    (calls : nat) (buf : list Z) (line : reference_string) (str : nat) :
  all_lines (D := D1) calls buf line str = all_lines (D := D2) calls buf line str
  /\ split_lines (D := D1) buf = split_lines (D := D2) buf.
Proof.
  assert (forall calls line str,
             all_lines (D := D1) calls buf line str
             = all_lines (D := D2) calls buf line str) as A.
  { clear calls line str.
    induction calls as [| calls IH]; intros line str; [reflexivity |].
    cbn [all_lines].
    assert (nextline (D := D1) buf line str = nextline (D := D2) buf line str)
      as ->.
    { destruct (Z.eq_dec (unit_at buf str) 0) as [E | NZ].
      - unfold nextline. now rewrite E.
      - now rewrite !nextline_spec by exact NZ. }
    destruct (nextline buf line str) as [[[[|] l] c] |]; try reflexivity.
    now rewrite IH. }
  split; [apply A |]. unfold split_lines. now rewrite A.
Qed.

Lemma all_lines_decoder_independent_witness :
  all_lines (D := utf8) 5 [195; 169; 13; 10; 98] {| start := 0; end_ := 0 |} 0
  = all_lines (D := fixed_width) 5 [195; 169; 13; 10; 98]
              {| start := 0; end_ := 0 |} 0
  /\ split_lines (D := utf8) [195; 169; 13; 10; 98]
     = split_lines (D := fixed_width) [195; 169; 13; 10; 98].
Proof.
  exact (all_lines_decoder_independent utf8 fixed_width utf8_contract
           fixed_width_contract 5 [195; 169; 13; 10; 98]
           {| start := 0; end_ := 0 |} 0).
Defined.

(** *** Counting lines *)

Lemma slice_In buf a b u :
  In u (slice buf a b) -> exists i, (a <= i < b)%nat /\ unit_at buf i = u.
Proof.
  remember (b - a)%nat as k eqn:Ek. revert a Ek.
  induction k as [| k IH]; intros a Ek I.
  - unfold slice in I. rewrite <- Ek in I. destruct I.
  - destruct (Nat.lt_ge_cases a (length buf)) as [L | L].
    + rewrite slice_cons in I by lia. destruct I as [<- | I].
      * exists a. split; [lia | reflexivity].
      * destruct (IH (S a) ltac:(lia) I) as (i & Hi & E).
        exists i. split; [lia | exact E].
    + unfold slice in I. rewrite skipn_all2 in I by lia.
      rewrite firstn_nil in I. destruct I.
Qed.

Lemma last_after_line_feed (x r : list Z) : last (x ++ 10 :: r) 10 = last r 10.
Proof.
  induction x as [| a x IH].
  - destruct r; reflexivity.
  - cbn [app]. rewrite <- IH. destruct x; reflexivity.
Qed.

Lemma open_tail_after_line_feed (x r : list Z) :
  open_tail (x ++ 10 :: r) = open_tail r.
Proof. unfold open_tail. now rewrite last_after_line_feed. Qed.

Lemma last_not_line_feed (l : list Z) :
  l <> [] -> (forall u, In u l -> u <> 10) -> last l 10 <> 10.
Proof.
  induction l as [| a l IH]; intros NE H; [contradiction |].
  destruct l as [| b l].
  - cbn. apply H. now left.
  - change (last (b :: l) 10 <> 10). apply IH; [discriminate |].
    intros u I. apply H. now right.
Qed.

Lemma count_no_line_feed (l : list Z) :
  (forall u, In u l -> u <> 10) -> count_occ Z.eq_dec l 10 = 0%nat.
Proof.
  intros H. apply count_occ_not_In. intros I. now apply (H 10 I).
Qed.

Section LineCount.

Context {D : Decoder} {DC : DecoderContract D}.

Lemma line_without_line_feed buf p u :
  In u (slice buf p (find_break buf p)) -> u <> 10.
Proof.
  intros I. apply slice_In in I as (i & Hi & <-).
  destruct (find_break_spec buf p) as (_ & _ & NB).
  specialize (NB i Hi). unfold is_break in NB. lia.
Qed.

Lemma all_lines_count calls buf line p ls fin :
  (length buf - p < calls)%nat ->
  all_lines calls buf line p = Some (ls, fin) ->
  length ls =
  (count_occ Z.eq_dec (slice buf p (p + length_ buf p)) 10%Z
   + open_tail (slice buf p (p + length_ buf p)))%nat.
Proof.
  revert line p ls fin.
  induction calls as [| calls IH]; intros line p ls fin F; [lia |].
  cbn [all_lines].
  destruct (Z.eq_dec (unit_at buf p) 0) as [E | NZ].
  - unfold nextline. rewrite E. cbn [Z.eqb]. intros [= <- _].
    rewrite (length_unfold buf p), E. cbn [Z.eqb].
    rewrite Nat.add_0_r, slice_nil. reflexivity.
  - rewrite (nextline_spec buf line p NZ).
    destruct (break_step buf p NZ) as (Le & Lc & NZs & Shape).
    set (e := find_break buf p) in *.
    set (c := (e + delim_width buf e)%nat) in *.
    pose proof (unit_at_nonzero_lt buf p NZ) as Lp.
    assert (p + length_ buf p = c + length_ buf c)%nat as Len
      by (apply length_skip; [lia | exact NZs]).
    destruct (all_lines calls buf {| start := p; end_ := e |} c)
      as [[ls' fin'] |] eqn:A; [| discriminate].
    intros [= <- _]. cbn [length].
    pose proof (IH _ c ls' fin' ltac:(lia) A) as Count.
    rewrite Len, Count.
    pose proof (fun u => line_without_line_feed buf p u) as NoLF. fold e in NoLF.
    rewrite <- (slice_app buf p c (c + length_ buf c)) by lia.
    rewrite <- (slice_app buf p e c) by lia.
    destruct Shape as [S1 | [S2 | [S3 Z0]]].
    + rewrite S1, <- app_assoc. cbn [app].
      rewrite open_tail_after_line_feed. rewrite !count_occ_app.
      rewrite (count_no_line_feed _ NoLF). cbn [count_occ].
      destruct (Z.eq_dec 10 10); [lia | contradiction].
    + rewrite S2, <- app_assoc. cbn [app].
      replace (slice buf p e ++ 13 :: 10 :: slice buf c (c + length_ buf c))
        with ((slice buf p e ++ [13]) ++ 10 :: slice buf c (c + length_ buf c))
        by (rewrite <- app_assoc; reflexivity).
      rewrite open_tail_after_line_feed. rewrite !count_occ_app.
      rewrite (count_no_line_feed _ NoLF). cbn [count_occ].
      destruct (Z.eq_dec 13 10); [discriminate |].
      destruct (Z.eq_dec 10 10); [lia | contradiction].
    + assert (e = c) as Eec.
      { destruct (Nat.eq_dec e c) as [Eq | Ne]; [exact Eq | exfalso].
        assert (unit_at buf e <> 0) as NZe by (apply NZs; lia).
        apply unit_at_nonzero_lt in NZe.
        rewrite slice_cons in S3 by lia. discriminate. }
      rewrite S3, app_nil_r.
      rewrite (length_unfold buf c), Z0. cbn [Z.eqb].
      rewrite Nat.add_0_r, slice_nil, app_nil_r.
      rewrite (count_no_line_feed _ NoLF).
      unfold open_tail.
      destruct (Z.eqb_spec (last (slice buf p e) 10) 10) as [L10 | _];
        [| reflexivity].
      exfalso. revert L10. apply last_not_line_feed; [| exact NoLF].
      rewrite slice_cons by lia. discriminate.
Qed.

End LineCount.

(** X5. A buffer has as many lines as its content has line feeds, and one
    more when the content does not end with a line feed; an empty content
    has none. *)
Theorem split_lines_count {D : Decoder} (DC : DecoderContract D)
    (buf : list Z) :
  exists ls,
    split_lines buf = Some ls /\
    length ls = (count_occ Z.eq_dec (content buf) 10%Z
                 + open_tail (content buf))%nat.
Proof.
  destruct (all_lines_spec (S (length buf)) buf {| start := 0; end_ := 0 |} 0)
    as (ls & A & _); [lia |].
  exists (map (line_units buf) ls). unfold split_lines. rewrite A.
  split; [reflexivity |]. rewrite length_map.
  assert (length buf - 0 < S (length buf))%nat as F by lia.
  rewrite (all_lines_count _ _ _ _ _ _ F A).
  cbn [Nat.add]. now rewrite slice_from_zero.
Qed.

Lemma split_lines_count_witness :
  exists ls,
    split_lines (D := utf8) [97; 13; 10; 10; 98] = Some ls /\
    length ls = 3%nat.
Proof.
  exact (split_lines_count utf8_contract [97; 13; 10; 10; 98]).
Defined.

(** ** [findfirst], single code point *)

Section FindfirstMore.

Context {D : Decoder} {DC : DecoderContract D}.

Lemma findfirst_is_first buf c p str :
  forall n, findfirst buf str c n = Some (Some p) ->
            first_occurrence buf str c = Some p.
Proof.
  pattern str. apply (decode_ind buf). clear str. intros str IH n.
  rewrite findfirst_unfold, first_occurrence_unfold.
  destruct (0 <? n); [| discriminate].
  destruct (nextchar buf str) as [ch temp] eqn:Dec.
  destruct (Z.eqb_spec ch 0) as [| NZ]; [discriminate |].
  destruct (ch =? c); [now intros [= <-] |].
  apply (IH ch temp eq_refl NZ).
Qed.

Lemma first_occurrence_before_unfold buf str limit c :
  first_occurrence_before buf str limit c =
  let (ch, temp) := nextchar buf str in
  if ch =? 0 then None
  else if (Z.of_nat str <? limit) && (ch =? c) then Some str
  else first_occurrence_before buf temp limit c.
Proof.
  unfold first_occurrence_before. rewrite decode_all_unfold.
  destruct (nextchar buf str) as [ch temp]. destruct (ch =? 0); [reflexivity |].
  cbn [find].
  change (within limit (str, ch, temp)) with (Z.of_nat str <? limit).
  change (cp_value (str, ch, temp)) with ch.
  destruct ((Z.of_nat str <? limit) && (ch =? c)); reflexivity.
Qed.

Lemma first_occurrence_before_past_limit buf str limit c :
  limit <= Z.of_nat str -> first_occurrence_before buf str limit c = None.
Proof.
  intros L. unfold first_occurrence_before.
  destruct (find _ (decode_all buf str)) as [e |] eqn:F; [| reflexivity].
  apply find_some in F as [I T]. apply decode_all_starts in I.
  unfold within in T. lia.
Qed.

Lemma first_occurrence_before_beyond_buffer buf str limit c :
  Z.of_nat (length buf) <= limit ->
  first_occurrence_before buf str limit c = first_occurrence buf str c.
Proof.
  intros L. unfold first_occurrence_before, first_occurrence.
  assert (forall e, In e (decode_all buf str) -> within limit e = true) as W.
  { intros e I. apply decode_all_bounds in I. unfold within. lia. }
  induction (decode_all buf str) as [| e l IH]; [reflexivity |].
  cbn [find]. rewrite (W e) by now left. cbn [andb].
  destruct (cp_value e =? c); [reflexivity |].
  apply IH. intros e' I. apply W. now right.
Qed.

(** With a bound that no code point straddles, [findfirst] returns the
    first occurrence before the bound. *)
Lemma findfirst_spec buf c limit str :
  forall n, 0 <= n < size_modulus -> limit = Z.of_nat str + n ->
            forallb (fun e => negb (straddles limit e)) (decode_all buf str) = true ->
            findfirst buf str c n = Some (first_occurrence_before buf str limit c).
Proof.
  pattern str. apply (decode_ind buf). clear str. intros str IH n N L.
  rewrite findfirst_unfold, first_occurrence_before_unfold, decode_all_unfold.
  destruct (nextchar buf str) as [ch temp] eqn:Dec.
  destruct (Z.ltb_spec 0 n) as [P | P].
  - destruct (Z.eqb_spec ch 0) as [| NZ]; [reflexivity |].
    destruct (nextchar_step _ _ _ _ Dec NZ).
    cbn [forallb]. intros NS. apply andb_prop in NS as [NS1 NS].
    unfold straddles, within in NS1. cbn [cp_start cp_next fst snd] in NS1.
    replace (Z.of_nat str <? limit) with true by lia. cbn [andb].
    destruct (ch =? c); [reflexivity |].
    apply (IH ch temp eq_refl NZ); [| | exact NS];
      rewrite size_sub_small; unfold ptr_diff; lia.
  - intros _. assert (n = 0) by lia. subst n.
    destruct (Z.eqb_spec ch 0) as [| NZ]; [reflexivity |].
    replace (Z.of_nat str <? limit) with false by lia. cbn [andb].
    destruct (nextchar_step _ _ _ _ Dec NZ).
    rewrite first_occurrence_before_past_limit by lia. reflexivity.
Qed.

Lemma findfirst_default_bound buf c str :
  Z.of_nat (length buf) <= size_max ->
  findfirst buf str c size_max = Some (first_occurrence buf str c).
Proof.
  intros L.
  rewrite (findfirst_spec buf c (Z.of_nat str + size_max) str size_max).
  - rewrite first_occurrence_before_beyond_buffer by lia. reflexivity.
  - unfold size_max, size_modulus. lia.
  - reflexivity.
  - apply no_straddle_beyond_buffer. lia.
Qed.

End FindfirstMore.

(** X6. Whatever the bound, a cursor that [findfirst] returns is the first
    occurrence of the target from the cursor it received: it is not before
    that cursor, the code point under it is the target, and no code point
    between the two is. *)
Theorem findfirst_returns_first_occurrence {D : Decoder}
    (DC : DecoderContract D) (buf : list Z) (str : nat)
    (character strLength : Z) (p : nat) :
  findfirst buf str character strLength = Some (Some p) ->
  first_occurrence buf str character = Some p /\
  (str <= p)%nat /\ fst (nextchar buf p) = character /\ character <> 0.
Proof.
  intros R. split; [now apply (findfirst_is_first buf character p str strLength) |].
  exact (findfirst_result buf character p str strLength R).
Qed.

Lemma findfirst_returns_first_occurrence_witness :
  first_occurrence (D := utf8) [108; 195; 169; 108; 195; 169] 1 233
  = Some 1%nat /\
  (1 <= 1)%nat /\
  fst (nextchar (Decoder := utf8) [108; 195; 169; 108; 195; 169] 1) = 233 /\
  233 <> 0.
Proof.
  apply (findfirst_returns_first_occurrence utf8_contract
           [108; 195; 169; 108; 195; 169] 1 233 7 1).
  reflexivity.
Defined.

(** X7. With a bound that no code point straddles, [findfirst] returns the
    first occurrence of the target among the code points before the bound,
    and no cursor when there is none; a cursor it returns lies before the
    bound. *)
Theorem findfirst_bounded {D : Decoder} (DC : DecoderContract D)
    (buf : list Z) (str : nat) (character strLength : Z) :
  0 <= strLength < size_modulus ->
  forallb (fun e => negb (straddles (Z.of_nat str + strLength) e))
          (decode_all buf str) = true ->
  findfirst buf str character strLength =
  Some (first_occurrence_before buf str (Z.of_nat str + strLength) character) /\
  forall p, findfirst buf str character strLength = Some (Some p) ->
            Z.of_nat p < Z.of_nat str + strLength.
Proof.
  intros N NS. split.
  - now apply findfirst_spec.
  - intros p R. now apply (findfirst_within_bound buf character p str strLength).
Qed.

Lemma findfirst_bounded_witness :
  findfirst (D := utf8) [97; 195; 169; 98; 97] 1 97 3 = Some None /\
  forall p, findfirst (D := utf8) [97; 195; 169; 98; 97] 1 97 3 = Some (Some p) ->
            Z.of_nat p < 1 + 3.
Proof.
  refine (findfirst_bounded utf8_contract [97; 195; 169; 98; 97] 1 97 3 _ _).
  - vm_compute. split; [discriminate | reflexivity].
  - reflexivity.
Defined.

(** X8. With the default bound, [findfirst] returns the first occurrence of
    the target before the terminator, and no cursor exactly when the target
    does not occur. *)
Theorem findfirst_default_is_first_occurrence {D : Decoder}
    (DC : DecoderContract D) (buf : list Z) (str : nat) (character : Z) :
  Z.of_nat (length buf) <= size_max ->
  findfirst buf str character size_max
  = Some (first_occurrence buf str character).
Proof. apply findfirst_default_bound. Qed.

Lemma findfirst_default_is_first_occurrence_witness :
  findfirst (D := utf8) hello 0 108 size_max = Some (Some 2%nat).
Proof.
  refine (findfirst_default_is_first_occurrence utf8_contract hello 0 108 _).
  vm_compute. discriminate.
Defined.

(** X9. A bound that ends inside a code point other than the target is
    dropped: the subtraction wraps around and the search goes on to the
    terminator, as with the default bound. *)
Theorem findfirst_straddled_bound_is_dropped {D : Decoder}
    (DC : DecoderContract D) (buf : list Z) (str : nat)
    (character strLength ch : Z) (temp : nat) :
  Z.of_nat (length buf) < size_modulus ->
  nextchar buf str = (ch, temp) -> ch <> 0 -> ch <> character ->
  0 < strLength < ptr_diff temp str ->
  findfirst buf str character strLength
  = Some (first_occurrence buf temp character).
Proof.
  intros LB Dec NZ Ne B. rewrite findfirst_unfold, Dec.
  destruct (Z.ltb_spec 0 strLength); [| lia].
  destruct (Z.eqb_spec ch 0); [contradiction |].
  destruct (Z.eqb_spec ch character); [contradiction |].
  destruct (nextchar_step _ _ _ _ Dec NZ). unfold ptr_diff in *.
  assert (size_sub strLength (Z.of_nat temp - Z.of_nat str)
          = strLength - (Z.of_nat temp - Z.of_nat str) + size_modulus) as E.
  { unfold size_sub.
    rewrite <- (Z.mod_add _ 1 size_modulus) by (unfold size_modulus; lia).
    rewrite Z.mul_1_l. apply Z.mod_small. lia. }
  rewrite E.
  rewrite (findfirst_spec buf character
             (Z.of_nat temp
              + (strLength - (Z.of_nat temp - Z.of_nat str) + size_modulus))
             temp).
  - rewrite first_occurrence_before_beyond_buffer by lia. reflexivity.
  - lia.
  - reflexivity.
  - apply no_straddle_beyond_buffer. lia.
Qed.

Lemma findfirst_straddled_bound_is_dropped_witness :
  findfirst (D := utf8) [195; 169; 98; 98; 120] 0 120 1 = Some (Some 4%nat).
Proof.
  refine (findfirst_straddled_bound_is_dropped utf8_contract
            [195; 169; 98; 98; 120] 0 120 1 233 2 _ _ _ _ _).
  - vm_compute. reflexivity.
  - reflexivity.
  - discriminate.
  - discriminate.
  - vm_compute. split; reflexivity.
Defined.

(** X10. The overload on a view searches the view and nothing else: with a
    view that ends on a code point boundary, it returns the first
    occurrence of the target among the code points of the view, whatever
    follows the view in the buffer, and a cursor it returns lies in the
    view. *)
Theorem findfirst_ref_stays_in_view {D : Decoder} (DC : DecoderContract D)
    (buf : list Z) (str : reference_string) (character : Z) :
  (start str <= end_ str)%nat ->
  Z.of_nat (end_ str) < size_modulus ->
  forallb (fun e => negb (straddles (Z.of_nat (end_ str)) e))
          (decode_all buf (start str)) = true ->
  findfirst_ref buf str character
  = Some (first_occurrence_before buf (start str) (Z.of_nat (end_ str))
                                  character) /\
  forall p, findfirst_ref buf str character = Some (Some p) ->
            (start str <= p < end_ str)%nat.
Proof.
  intros L B NS. unfold findfirst_ref, length_ref.
  rewrite size_sub_small by lia.
  set (n := Z.of_nat (end_ str) - Z.of_nat (start str)).
  assert (0 <= n < size_modulus) as N by (unfold n; lia).
  assert (Z.of_nat (end_ str) = Z.of_nat (start str) + n) as E
    by (unfold n; lia).
  split.
  - apply findfirst_spec; [exact N | exact E | exact NS].
  - intros p R. split.
    + now apply (findfirst_result buf character p (start str) n R).
    + assert (forallb (fun e => negb (straddles (Z.of_nat (start str) + n) e))
                      (decode_all buf (start str)) = true) as NS'
        by (rewrite <- E; exact NS).
      pose proof (findfirst_within_bound buf character p (start str) n N NS' R).
      lia.
Qed.

Lemma findfirst_ref_stays_in_view_witness :
  findfirst_ref (D := utf8) [120; 97; 98; 120] {| start := 1; end_ := 3 |} 120
  = Some None /\
  forall p, findfirst_ref (D := utf8) [120; 97; 98; 120]
                          {| start := 1; end_ := 3 |} 120 = Some (Some p) ->
            (1 <= p < 3)%nat.
Proof.
  refine (findfirst_ref_stays_in_view utf8_contract [120; 97; 98; 120]
            {| start := 1; end_ := 3 |} 120 _ _ _).
  - cbn. lia.
  - vm_compute. reflexivity.
  - reflexivity.
Defined.

(** ** [findfirst], string in string *)

Section SubstringMore.

Context {D : Decoder} {DC : DecoderContract D} {C : Comparator}.

Lemma findfirst_sub_loop_sound fuel buf1 buf2 str2 fc n1 n2 p :
  forall str1,
    findfirst_sub_loop fuel buf1 str1 buf2 str2 fc n1 n2 = Some (Some p) ->
    (str1 <= p)%nat /\ fst (nextchar buf1 p) = fc /\
    compare buf1 p buf2 str2 n2 = 0.
Proof.
  induction fuel as [| fuel IH]; intros str1; cbn [findfirst_sub_loop];
    [discriminate |].
  destruct (findfirst buf1 str1 fc n1) as [[found |] |] eqn:R;
    try discriminate.
  destruct (findfirst_result _ _ _ _ _ R) as (L & V & NZ).
  destruct (Z.eqb_spec (compare buf1 found buf2 str2 n2) 0) as [E | _].
  - intros [= <-]. auto.
  - intros R'. apply IH in R' as (L' & V' & E').
    destruct (nextchar buf1 found) as [ch temp] eqn:Dec. cbn [fst snd] in *.
    subst fc. destruct (nextchar_step _ _ _ _ Dec NZ).
    repeat split; try assumption. lia.
Qed.

Lemma first_occurrence_value buf str c p :
  Z.of_nat (length buf) <= size_max ->
  first_occurrence buf str c = Some p ->
  (str <= p)%nat /\ fst (nextchar buf p) = c /\ c <> 0.
Proof.
  intros L F. apply (findfirst_result buf c p str size_max).
  rewrite findfirst_default_bound by exact L. now rewrite F.
Qed.

Lemma first_match_step buf1 buf2 str2 fc n2 str1 :
  first_match buf1 str1 buf2 str2 fc n2 =
  match first_occurrence buf1 str1 fc with
  | None => None
  | Some found =>
      if compare buf1 found buf2 str2 n2 =? 0 then Some found
      else first_match buf1 (snd (nextchar buf1 found)) buf2 str2 fc n2
  end.
Proof.
  pattern str1. apply (decode_ind buf1). clear str1. intros str1 IH.
  rewrite first_occurrence_unfold. unfold first_match at 1.
  rewrite decode_all_unfold.
  destruct (nextchar buf1 str1) as [ch temp] eqn:Dec.
  destruct (Z.eqb_spec ch 0) as [| NZ]; [reflexivity |].
  cbn [find].
  change (cp_value (str1, ch, temp)) with ch.
  change (cp_start (str1, ch, temp)) with str1.
  destruct (ch =? fc); cbn [andb].
  - rewrite Dec. cbn [snd].
    destruct (compare buf1 str1 buf2 str2 n2 =? 0); reflexivity.
  - apply (IH ch temp eq_refl NZ).
Qed.

Lemma findfirst_sub_loop_spec fuel buf1 buf2 str2 fc n2 :
  Z.of_nat (length buf1) <= size_max ->
  forall str1,
    (length buf1 - str1 < fuel)%nat ->
    findfirst_sub_loop fuel buf1 str1 buf2 str2 fc size_max n2
    = Some (first_match buf1 str1 buf2 str2 fc n2).
Proof.
  intros LB. induction fuel as [| fuel IH]; intros str1 F; [lia |].
  cbn [findfirst_sub_loop].
  rewrite findfirst_default_bound by exact LB. rewrite first_match_step.
  destruct (first_occurrence buf1 str1 fc) as [found |] eqn:R; [| reflexivity].
  destruct (compare buf1 found buf2 str2 n2 =? 0); [reflexivity |].
  destruct (first_occurrence_value _ _ _ _ LB R) as (L & V & NZ).
  destruct (nextchar buf1 found) as [ch temp] eqn:Dec. cbn [fst snd] in *.
  subst fc. destruct (nextchar_step _ _ _ _ Dec NZ).
  apply IH. lia.
Qed.

End SubstringMore.

(** X11. Whatever the bounds, a cursor that the string search returns for a
    needle that is not empty is not before the cursor it received, stands
    on the first code point of the needle, and is one at which the
    comparator reported the needle over the needle length. *)
Theorem findfirst_sub_sound {D : Decoder} (DC : DecoderContract D)
    {C : Comparator} (buf1 : list Z) (str1 : nat) (buf2 : list Z) (str2 : nat)
    (str1Length str2Length : Z) (p : nat) :
  str2Length <> 0 -> unit_at buf2 str2 <> 0 ->
  findfirst_sub buf1 str1 buf2 str2 str1Length str2Length = Some (Some p) ->
  (str1 <= p)%nat /\
  fst (nextchar buf1 p) = getchar buf2 str2 0 /\
  compare buf1 p buf2 str2 (needle_length buf2 str2 str2Length) = 0.
Proof.
  intros N2 U2. unfold findfirst_sub.
  destruct (Z.eqb_spec str2Length 0); [contradiction |].
  destruct (Z.eqb_spec (unit_at buf2 str2) 0); [contradiction |].
  cbn [orb]. apply findfirst_sub_loop_sound.
Qed.

Lemma findfirst_sub_sound_witness :
  (0 <= 2)%nat /\
  fst (nextchar (Decoder := utf8) [97; 88; 97; 98] 2)
  = getchar (D := utf8) [97; 98] 0 0 /\
  compare (Comparator := ordinal) [97; 88; 97; 98] 2 [97; 98] 0
          (needle_length [97; 98] 0 size_max) = 0.
Proof.
  refine (findfirst_sub_sound utf8_contract (C := ordinal)
            [97; 88; 97; 98] 0 [97; 98] 0 size_max size_max 2 _ _ _).
  - discriminate.
  - discriminate.
  - reflexivity.
Defined.

(** X12. With the default bound on the haystack and a needle that is not
    empty, the string search returns the first code point of the haystack
    that is the first code point of the needle and at which the comparator
    reports the needle, and no cursor when there is none. *)
Theorem findfirst_sub_default_is_first_match {D : Decoder}
    (DC : DecoderContract D) {C : Comparator}
    (buf1 : list Z) (str1 : nat) (buf2 : list Z) (str2 : nat)
    (str2Length : Z) :
  Z.of_nat (length buf1) <= size_max ->
  str2Length <> 0 -> unit_at buf2 str2 <> 0 ->
  findfirst_sub buf1 str1 buf2 str2 size_max str2Length =
  Some (first_match buf1 str1 buf2 str2 (getchar buf2 str2 0)
                    (needle_length buf2 str2 str2Length)).
Proof.
  intros LB N2 U2. unfold findfirst_sub.
  destruct (Z.eqb_spec str2Length 0); [contradiction |].
  destruct (Z.eqb_spec (unit_at buf2 str2) 0); [contradiction |].
  cbn [orb]. apply findfirst_sub_loop_spec; [exact LB | lia].
Qed.

(** "needle" is found at index 2 of "a needle here", "xyz" is not found in
    "abc". *)
Lemma findfirst_sub_default_is_first_match_witness :
  findfirst_sub (D := utf8) (C := ordinal)
    [97; 32; 110; 101; 101; 100; 108; 101; 32; 104; 101; 114; 101] 0
    [110; 101; 101; 100; 108; 101] 0 size_max size_max = Some (Some 2%nat) /\
  findfirst_sub (D := utf8) (C := ordinal)
    [97; 98; 99] 0 [120; 121; 122] 0 size_max size_max = Some None.
Proof.
  split.
  - refine (findfirst_sub_default_is_first_match utf8_contract (C := ordinal)
              [97; 32; 110; 101; 101; 100; 108; 101; 32; 104; 101; 114; 101] 0
              [110; 101; 101; 100; 108; 101] 0 size_max _ _ _).
    + vm_compute. discriminate.
    + discriminate.
    + discriminate.
  - refine (findfirst_sub_default_is_first_match utf8_contract (C := ordinal)
              [97; 98; 99] 0 [120; 121; 122] 0 size_max _ _ _).
    + vm_compute. discriminate.
    + discriminate.
    + discriminate.
Defined.

(** ** [findfirstof] *)

Lemma examined_member members ch :
  forall budget advance,
    is_member (examined members budget advance) ch = true ->
    is_member members ch = true.
Proof.
  induction members as [| m ms IH]; intros budget advance; cbn [examined];
    [trivial |].
  destruct (0 <? budget); [| discriminate].
  cbn [is_member existsb]. destruct (m =? ch); [trivial |].
  cbn [orb]. apply IH.
Qed.

Section SetMore.

Context {D : Decoder} {DC : DecoderContract D}.

Lemma findfirstof_result buf charSet set0 sn p str :
  forall n, findfirstof buf str charSet set0 n sn = Some (Some p) ->
            (str <= p)%nat /\
            is_member (set_members charSet set0) (fst (nextchar buf p)) = true /\
            fst (nextchar buf p) <> 0.
Proof.
  pattern str. apply (decode_ind buf). clear str. intros str IH n.
  rewrite findfirstof_unfold. destruct (0 <? n); [| discriminate].
  destruct (nextchar buf str) as [ch temp] eqn:Dec.
  destruct (Z.eqb_spec ch 0) as [| NZ]; [discriminate |].
  destruct (nextchar_step _ _ _ _ Dec NZ).
  destruct (is_member (examined _ _ _) ch) eqn:M.
  - intros [= <-]. rewrite Dec. cbn [fst].
    apply examined_member in M. auto.
  - intros R. destruct (IH ch temp eq_refl NZ _ R) as (L & V).
    split; [lia | exact V].
Qed.

Lemma findfirstof_single buf charSet set0 sn c str :
  set_members charSet set0 = [c] -> 0 < sn ->
  forall n, findfirstof buf str charSet set0 n sn = findfirst buf str c n.
Proof.
  intros M P. pattern str. apply (decode_ind buf). clear str. intros str IH n.
  rewrite findfirstof_unfold, findfirst_unfold, M.
  destruct (0 <? n); [| reflexivity].
  destruct (nextchar buf str) as [ch temp] eqn:Dec.
  destruct (Z.eqb_spec ch 0) as [| NZ]; [reflexivity |].
  cbn [examined]. destruct (Z.ltb_spec 0 sn); [| lia].
  cbn [is_member existsb]. rewrite orb_false_r, (Z.eqb_sym c ch).
  destruct (ch =? c); [reflexivity |].
  apply (IH ch temp eq_refl NZ).
Qed.

Lemma findfirstof_nothing_examined buf charSet set0 sn str :
  (forall advance, examined (set_members charSet set0) sn advance = []) ->
  forall n, findfirstof buf str charSet set0 n sn = Some None.
Proof.
  intros E. pattern str. apply (decode_ind buf). clear str. intros str IH n.
  rewrite findfirstof_unfold. destruct (0 <? n); [| reflexivity].
  destruct (nextchar buf str) as [ch temp] eqn:Dec.
  destruct (Z.eqb_spec ch 0) as [| NZ]; [reflexivity |].
  rewrite E. cbn [is_member existsb].
  apply (IH ch temp eq_refl NZ).
Qed.

End SetMore.

(** X13. Whatever the two bounds, a cursor that [findfirstof] returns is not
    before the cursor it received and stands on a code point that is not the
    terminator and is one of the code points of the set. *)
Theorem findfirstof_sound {D : Decoder} (DC : DecoderContract D)
    (buf : list Z) (str : nat) (charSet : list Z) (set0 : nat)
    (strLength setLength : Z) (p : nat) :
  findfirstof buf str charSet set0 strLength setLength = Some (Some p) ->
  (str <= p)%nat /\
  is_member (set_members charSet set0) (fst (nextchar buf p)) = true /\
  fst (nextchar buf p) <> 0.
Proof. apply findfirstof_result. Qed.

Lemma findfirstof_sound_witness :
  (0 <= 2)%nat /\
  is_member (set_members (D := utf8) [111; 195; 169] 0)
            (fst (nextchar (Decoder := utf8) [104; 101; 195; 169] 2)) = true /\
  fst (nextchar (Decoder := utf8) [104; 101; 195; 169] 2) <> 0.
Proof.
  apply (findfirstof_sound utf8_contract [104; 101; 195; 169] 0
           [111; 195; 169] 0 4 3 2).
  reflexivity.
Defined.

(** X14. With a set of one code point and a set bound above zero,
    [findfirstof] is [findfirst] for that code point, whatever the source
    bound; so is [findfirstof] for a single code point. *)
Theorem findfirstof_single_is_findfirst {D : Decoder} (DC : DecoderContract D)
    (buf : list Z) (str : nat) (charSet : list Z) (set0 : nat)
    (character strLength setLength : Z) :
  set_members charSet set0 = [character] -> 0 < setLength ->
  findfirstof buf str charSet set0 strLength setLength
  = findfirst buf str character strLength /\
  findfirstof_char buf str character strLength
  = findfirst buf str character strLength.
Proof.
  intros M P. split; [now apply findfirstof_single | reflexivity].
Qed.

Lemma findfirstof_single_is_findfirst_witness :
  findfirstof (D := utf8) [97; 195; 169; 98] 0 [195; 169] 0 3 1
  = findfirst (D := utf8) [97; 195; 169; 98] 0 233 3 /\
  findfirstof_char (D := utf8) [97; 195; 169; 98] 0 233 3
  = findfirst (D := utf8) [97; 195; 169; 98] 0 233 3.
Proof.
  refine (findfirstof_single_is_findfirst utf8_contract [97; 195; 169; 98] 0
            [195; 169] 0 233 3 1 _ _); reflexivity.
Defined.

(** X15. With an empty set, or a set bound of zero, [findfirstof] returns no
    cursor, whatever the source and its bound. *)
Theorem findfirstof_empty_set {D : Decoder} (DC : DecoderContract D)
    (buf : list Z) (str : nat) (charSet : list Z) (set0 : nat)
    (strLength setLength : Z) :
  unit_at charSet set0 = 0 \/ setLength = 0 ->
  findfirstof buf str charSet set0 strLength setLength = Some None.
Proof.
  intros H. apply findfirstof_nothing_examined. intros advance.
  destruct H as [U | ->].
  - unfold set_members. rewrite decode_all_unfold.
    rewrite (nextchar_terminator charSet set0 U). reflexivity.
  - destruct (set_members charSet set0); reflexivity.
Qed.

Lemma findfirstof_empty_set_witness :
  findfirstof (D := utf8) hello 0 [] 0 size_max size_max = Some None /\
  findfirstof (D := utf8) hello 0 [108] 0 size_max 0 = Some None.
Proof.
  split.
  - apply (findfirstof_empty_set utf8_contract). left. reflexivity.
  - apply (findfirstof_empty_set utf8_contract). right. reflexivity.
Defined.

(** X16. With the default bounds [findfirstof] returns the cursor of the
    first code point of the source that is a member of the set, whatever
    the order of the members, and no cursor when the source has none; so it
    does with a source bound that no code point straddles, over the code
    points before the bound, and a set bound above the product of the
    lengths of the two buffers, which the budget of the set cannot use up.
    In "hello" the set "ol" is found at index 2, the set "xyz" is not
    found. *)
Theorem findfirstof_earliest_member :
  (forall (D : Decoder) (DC : DecoderContract D) buf str charSet set0,
      Z.of_nat (length buf) <= size_max ->
      Z.of_nat (length charSet) * Z.of_nat (length buf) < size_max ->
      findfirstof buf str charSet set0 size_max size_max =
      Some (option_map cp_start
              (find (fun e => is_member (set_members charSet set0) (cp_value e))
                    (decode_all buf str)))) /\
  (forall (D : Decoder) (DC : DecoderContract D) buf str charSet set0
          strLength setLength,
      0 <= strLength < size_modulus ->
      forallb (fun e => negb (straddles (Z.of_nat str + strLength) e))
              (decode_all buf str) = true ->
      Z.of_nat (length charSet) * Z.of_nat (length buf) < setLength
                                                         < size_modulus ->
      findfirstof buf str charSet set0 strLength setLength =
      Some (first_of_set buf str (Z.of_nat str + strLength)
                         (set_members charSet set0))) /\
  findfirstof (D := utf8) hello 0 [111; 108] 0 size_max size_max
  = Some (Some 2%nat) /\
  findfirstof (D := utf8) hello 0 [120; 121; 122] 0 size_max size_max
  = Some None.
Proof.
  split; [| split; [| split; reflexivity]].
  - intros D DC buf str charSet set0 LB LS.
    rewrite (findfirstof_spec buf charSet set0 size_max
                              (Z.of_nat str + size_max) str).
    + rewrite first_of_set_beyond_buffer by lia. reflexivity.
    + unfold size_max in *. lia.
    + unfold size_max, size_modulus. lia.
    + reflexivity.
    + apply no_straddle_beyond_buffer. lia.
  - intros D DC buf str charSet set0 n sn N NS SN.
    now apply findfirstof_spec.
Qed.

Lemma findfirstof_earliest_member_witness :
  findfirstof (D := utf8) hello 1 [111; 108] 0 3 size_max = Some (Some 2%nat) /\
  findfirstof (D := utf8) hello 0 [111; 108] 0 size_max size_max
  = Some (Some 2%nat).
Proof.
  split.
  - refine (proj1 (proj2 findfirstof_earliest_member) utf8 utf8_contract
                  hello 1%nat [111; 108] 0%nat 3 size_max _ _ _).
    + vm_compute. split; [discriminate | reflexivity].
    + reflexivity.
    + vm_compute. split; reflexivity.
  - refine (proj1 findfirstof_earliest_member utf8 utf8_contract
                  hello 0%nat [111; 108] 0%nat _ _).
    + vm_compute. discriminate.
    + vm_compute. reflexivity.
Defined.
